(** * Segment editor: segment store, edit history and persistence

    A shallow embedding of the browser front end of the segment editor.
    Two builds of the front end exist in the repository:

    - [src/frontend/app.js], which deletes softly (a segment is marked,
      and removed only by [finalizeDeletes]); it is module [SoftDelete];
    - [src/unnamed/part_000], which deletes at once (the segment is
      spliced out of the array and kept in the undo entry); it is module
      [HardDelete].

    The functions the two files share verbatim ([handleRegionUpdate],
    [saveSegmentUpdate], [saveAll], [zoomToSegment], [centerOnTime],
    the commit of a text edit, the edit branch of [undo]) are written
    once, in section [Editor].

    Modelling conventions.
    - The global object [state] and the parts of [elements] and of the
      WaveSurfer instance that the functions read or write are one
      record, [State], passed explicitly.
    - JavaScript numbers that hold times and pixels are exact rationals
      ([Q]); binary64 rounding is not modelled.  A division whose
      divisor is read from the state can give [Infinity], [-Infinity]
      or [NaN]: its result and what is computed from it is a
      [JsFloat].  The zero of [Q] stands for [+0], the zero that a
      difference [x - x] gives; [-0] is not modelled.
    - [fetch] is an oracle [net]: given the requests issued so far and
      the new request it tells whether the promise resolves.  Every
      request issued is appended to the log [requests].  An [async]
      function runs to completion without other events in between.
    - The region overlay and the table rows (colours, CSS classes,
      scrolling) are not modelled. *)

From Stdlib Require Import ZArith QArith Qabs Qround Qminmax Lia Lqa Ascii.
From stdpp Require Import base list strings pretty.

(** ** JavaScript values used as segment identifiers *)

(** A segment id is a JSON number or a string.  [IdNum n] is the number
    [n]; [IdStr n] is the string that spells the integer [n] in decimal
    (what [n.toString()] returns, and what [region.id] holds).  Strings
    that are not the decimal spelling of an integer are outside the
    model. *)
Inductive JsId : Type :=
  | IdNum (n : Z)
  | IdStr (n : Z).

(** [parseInt(x)]: the integer spelled by a string; an integer number is
    first converted to its spelling and so comes back unchanged. *)
Definition parseInt (x : JsId) : Z :=
  match x with
  | IdNum n => n
  | IdStr n => n
  end.

(** [typeof segmentId === 'string' ? parseInt(segmentId) : segmentId] *)
Definition normalizeId (x : JsId) : Z :=
  match x with
  | IdStr _ => parseInt x
  | IdNum n => n
  end.

(** [a === b]: same type and same value. *)
Definition strictEq (a b : JsId) : bool :=
  match a, b with
  | IdNum x, IdNum y => (x =? y)%Z
  | IdStr x, IdStr y => (x =? y)%Z
  | _, _ => false
  end.

(** [a == b]: a string operand is converted to the number it spells
    when the other operand is a number. *)
Definition looseEq (a b : JsId) : bool :=
  (parseInt a =? parseInt b)%Z.

(** [x.toString()] as it appears inside a URL or a template string. *)
Definition idText (x : JsId) : string := pretty (parseInt x).

(** [!state.selectedSegmentId]: [null] and [0] are falsy. *)
Definition falsyId (x : option Z) : bool :=
  match x with
  | None => true
  | Some n => (n =? 0)%Z
  end.

(** The result of [parseFloat]: a finite number, or [NaN] / an infinity
    (both are written as [null] by [JSON.stringify]). *)
Inductive JsNumber : Type :=
  | Finite (q : Q)
  | NonFinite.

(** A number that comes out of arithmetic in which a divisor can be
    zero: a finite number or one of the three values that are not. *)
Inductive JsFloat : Type :=
  | Num (q : Q)
  | Infinity
  | NegInfinity
  | NaN.

(** ** Array helpers *)

(** [Array.prototype.findIndex]; [None] stands for [-1]. *)
Fixpoint findIndex {A : Type} (p : A -> bool) (l : list A) : option nat :=
  match l with
  | [] => None
  | x :: l' => if p x then Some 0%nat else S <$> findIndex p l'
  end.

(** [Array.prototype.find]: the first element that satisfies [p]. *)
Definition find {A : Type} (p : A -> bool) (l : list A) : option A :=
  findIndex p l ≫= λ i, l !! i.

(** [find((s, i) => p i s)] where the callback also reads the index;
    [k] is the index of the head of [l]. *)
Fixpoint findFrom {A : Type} (k : nat) (p : nat -> A -> bool) (l : list A)
  : option A :=
  match l with
  | [] => None
  | x :: l' => if p k x then Some x else findFrom (S k) p l'
  end.

(** [arr.indexOf(x)] on an array of integers, followed by
    [splice(idx, 1)] when [idx !== -1]: the first occurrence is removed. *)
Definition indexOf (x : Z) (l : list Z) : option nat :=
  findIndex (Z.eqb x) l.

Definition removeFirst (x : Z) (l : list Z) : list Z :=
  match indexOf x l with
  | Some i => delete i l
  | None => l
  end.

(** [arr.splice(i, 0, x)]: insertion before index [i]; an index beyond
    the end appends. *)
Definition spliceIn {A : Type} (i : nat) (x : A) (l : list A) : list A :=
  take i l ++ x :: drop i l.

(** ** Data model *)

Record Chunk : Type := mkChunk {
  chunk_id : Z;
  start_time : Q;
  file_path : string
}.

(** A segment as the client holds it.  [markedForDeletion] is a
    session-local flag ([undefined] on a freshly fetched segment and
    [false] are not told apart).  [seg_start_time] and [seg_end_time]
    are the properties [start_time] and [end_time] that [startTimeEdit]
    writes on the object; [None] is [undefined]. *)
Record Segment : Type := mkSegment {
  segment_id : JsId;
  seg_chunk_id : Z;
  start_sec : Q;
  end_sec : Q;
  text : string;
  gap_type : string;
  markedForDeletion : bool;
  seg_start_time : option JsNumber;
  seg_end_time : option JsNumber
}.

Definition set_times (a b : Q) (s : Segment) : Segment :=
  {| segment_id := segment_id s; seg_chunk_id := seg_chunk_id s;
     start_sec := a; end_sec := b; text := text s; gap_type := gap_type s;
     markedForDeletion := markedForDeletion s;
     seg_start_time := seg_start_time s; seg_end_time := seg_end_time s |}.

Definition set_text (t : string) (s : Segment) : Segment :=
  {| segment_id := segment_id s; seg_chunk_id := seg_chunk_id s;
     start_sec := start_sec s; end_sec := end_sec s; text := t;
     gap_type := gap_type s; markedForDeletion := markedForDeletion s;
     seg_start_time := seg_start_time s; seg_end_time := seg_end_time s |}.

Definition set_marked (b : bool) (s : Segment) : Segment :=
  {| segment_id := segment_id s; seg_chunk_id := seg_chunk_id s;
     start_sec := start_sec s; end_sec := end_sec s; text := text s;
     gap_type := gap_type s; markedForDeletion := b;
     seg_start_time := seg_start_time s; seg_end_time := seg_end_time s |}.

Definition set_seg_start_time (v : JsNumber) (s : Segment) : Segment :=
  {| segment_id := segment_id s; seg_chunk_id := seg_chunk_id s;
     start_sec := start_sec s; end_sec := end_sec s; text := text s;
     gap_type := gap_type s; markedForDeletion := markedForDeletion s;
     seg_start_time := Some v; seg_end_time := seg_end_time s |}.

Definition set_seg_end_time (v : JsNumber) (s : Segment) : Segment :=
  {| segment_id := segment_id s; seg_chunk_id := seg_chunk_id s;
     start_sec := start_sec s; end_sec := end_sec s; text := text s;
     gap_type := gap_type s; markedForDeletion := markedForDeletion s;
     seg_start_time := seg_start_time s; seg_end_time := Some v |}.

(** The region handed to the [region-updated] callback: its id is the
    segment id as a string, its bounds are chunk-local seconds. *)
Record Region : Type := mkRegion {
  region_id : JsId;
  region_start : Q;
  region_end : Q
}.

(** The object passed to [api.updateSegment] as [JSON.stringify] sends
    it: a key whose value is [undefined] is left out ([None]). *)
Record Updates : Type := mkUpdates {
  u_start_sec : option Q;
  u_end_sec : option Q;
  u_text : option string;
  u_start_time : option JsNumber;
  u_end_time : option JsNumber
}.

Definition noUpdates : Updates := mkUpdates None None None None None.

(** The calls made through [api]: [PUT /api/segments/<id>] with a body,
    and [DELETE /api/segments/<id>].  The id appears in the URL only, so
    its numeric spelling is all that is sent. *)
Inductive Request : Type :=
  | PUT (id : Z) (body : Updates)
  | DELETE (id : Z).

(** The objects pushed on [state.undoStack] without a [type] property
    are edits: [{segmentId, oldStart, oldEnd}] from a region update
    ([segmentId] is the result of [parseInt], a number),
    [{segmentId, oldText}] from a text edit and [{segmentId, time}] from
    a table time edit (both carry [segment.segment_id] as it is). *)
Inductive Edit : Type :=
  | EditTimes (segmentId : Z) (oldStart oldEnd : Q)
  | EditText (segmentId : JsId) (oldText : string)
  | EditTime (segmentId : JsId) (time : string).

(** [lastChange.segmentId] *)
Definition edit_segmentId (e : Edit) : JsId :=
  match e with
  | EditTimes n _ _ => IdNum n
  | EditText x _ => x
  | EditTime x _ => x
  end.

(** An entry of the undo stack.  An entry with [type: 'delete'] carries
    the payload [D] of the build: the segment id in [SoftDelete], the
    copied segment and its index in [HardDelete]. *)
Inductive UndoEntry (D : Type) : Type :=
  | EditEntry (e : Edit)
  | DeleteEntry (d : D).

Arguments EditEntry {D} e.
Arguments DeleteEntry {D} d.

(** [item.type !== 'delete'] *)
Definition notDelete {D : Type} (e : UndoEntry D) : bool :=
  match e with
  | DeleteEntry _ => false
  | EditEntry _ => true
  end.

(** What was last asked of the waveform: [zoom(pxPerSec)], the scroll
    offset and [seekTo(ratio)]. *)
Record View : Type := mkView {
  view_zoom : JsFloat;
  view_scroll : JsFloat;
  view_seek : JsFloat
}.

(** The controls and read-outs of [elements] that the functions write.
    [status] is the pair (text, type) given to [setStatus]; that a
    status of type [saved] is blanked three seconds later is not
    modelled. *)
Record Ui : Type := mkUi {
  status : string * string;
  selectedInfo : string;
  undoBtn_disabled : bool;
  deleteBtn_disabled : bool;
  finalizeBtn_disabled : bool
}.

(** [state], together with the controls, the waveform
    ([getDuration()], the width of its container, the last view asked
    for; [None] before any request) and the log of requests issued. *)
Record State (D : Type) : Type := mkState {
  segments : list Segment;
  currentChunk : option Chunk;
  selectedSegmentId : option Z;
  undoStack : list (UndoEntry D);
  deletedSegments : list Z;
  hasUnsavedChanges : bool;
  ui : Ui;
  ws_duration : Q;
  waveform_clientWidth : Q;
  ws_view : option View;
  requests : list Request
}.

Arguments mkState {D}.
Arguments segments {D} _.
Arguments currentChunk {D} _.
Arguments selectedSegmentId {D} _.
Arguments undoStack {D} _.
Arguments deletedSegments {D} _.
Arguments hasUnsavedChanges {D} _.
Arguments ui {D} _.
Arguments ws_duration {D} _.
Arguments waveform_clientWidth {D} _.
Arguments ws_view {D} _.
Arguments requests {D} _.

(** *** Field updates *)

Definition set_status (v : string * string) (u : Ui) : Ui :=
  {| status := v; selectedInfo := selectedInfo u;
     undoBtn_disabled := undoBtn_disabled u;
     deleteBtn_disabled := deleteBtn_disabled u;
     finalizeBtn_disabled := finalizeBtn_disabled u |}.

Definition set_selectedInfo (v : string) (u : Ui) : Ui :=
  {| status := status u; selectedInfo := v;
     undoBtn_disabled := undoBtn_disabled u;
     deleteBtn_disabled := deleteBtn_disabled u;
     finalizeBtn_disabled := finalizeBtn_disabled u |}.

Definition set_undoBtn (v : bool) (u : Ui) : Ui :=
  {| status := status u; selectedInfo := selectedInfo u;
     undoBtn_disabled := v;
     deleteBtn_disabled := deleteBtn_disabled u;
     finalizeBtn_disabled := finalizeBtn_disabled u |}.

Definition set_deleteBtn (v : bool) (u : Ui) : Ui :=
  {| status := status u; selectedInfo := selectedInfo u;
     undoBtn_disabled := undoBtn_disabled u;
     deleteBtn_disabled := v;
     finalizeBtn_disabled := finalizeBtn_disabled u |}.

Definition set_finalizeBtn (v : bool) (u : Ui) : Ui :=
  {| status := status u; selectedInfo := selectedInfo u;
     undoBtn_disabled := undoBtn_disabled u;
     deleteBtn_disabled := deleteBtn_disabled u;
     finalizeBtn_disabled := v |}.

Section Updates.
Context {D : Type}.
Implicit Type st : State D.

Definition set_segments (v : list Segment) st : State D :=
  mkState v (currentChunk st) (selectedSegmentId st) (undoStack st)
    (deletedSegments st) (hasUnsavedChanges st) (ui st) (ws_duration st)
    (waveform_clientWidth st) (ws_view st) (requests st).

Definition set_selectedSegmentId (v : option Z) st : State D :=
  mkState (segments st) (currentChunk st) v (undoStack st)
    (deletedSegments st) (hasUnsavedChanges st) (ui st) (ws_duration st)
    (waveform_clientWidth st) (ws_view st) (requests st).

Definition set_undoStack (v : list (UndoEntry D)) st : State D :=
  mkState (segments st) (currentChunk st) (selectedSegmentId st) v
    (deletedSegments st) (hasUnsavedChanges st) (ui st) (ws_duration st)
    (waveform_clientWidth st) (ws_view st) (requests st).

Definition set_deletedSegments (v : list Z) st : State D :=
  mkState (segments st) (currentChunk st) (selectedSegmentId st)
    (undoStack st) v (hasUnsavedChanges st) (ui st) (ws_duration st)
    (waveform_clientWidth st) (ws_view st) (requests st).

Definition set_hasUnsavedChanges (v : bool) st : State D :=
  mkState (segments st) (currentChunk st) (selectedSegmentId st)
    (undoStack st) (deletedSegments st) v (ui st) (ws_duration st)
    (waveform_clientWidth st) (ws_view st) (requests st).

Definition set_ui (v : Ui) st : State D :=
  mkState (segments st) (currentChunk st) (selectedSegmentId st)
    (undoStack st) (deletedSegments st) (hasUnsavedChanges st) v
    (ws_duration st) (waveform_clientWidth st) (ws_view st) (requests st).

Definition set_ws_view (v : option View) st : State D :=
  mkState (segments st) (currentChunk st) (selectedSegmentId st)
    (undoStack st) (deletedSegments st) (hasUnsavedChanges st) (ui st)
    (ws_duration st) (waveform_clientWidth st) v (requests st).

Definition set_requests (v : list Request) st : State D :=
  mkState (segments st) (currentChunk st) (selectedSegmentId st)
    (undoStack st) (deletedSegments st) (hasUnsavedChanges st) (ui st)
    (ws_duration st) (waveform_clientWidth st) (ws_view st) v.

(** [setStatus(message, type)] *)
Definition setStatus (message type : string) st : State D :=
  set_ui (set_status (message, type) (ui st)) st.

(** [elements.undoBtn.disabled = state.undoStack.length === 0] *)
Definition refreshUndoBtn st : State D :=
  set_ui (set_undoBtn (bool_decide (length (undoStack st) = 0%nat)) (ui st)) st.

(** [state.undoStack.push(e); elements.undoBtn.disabled = false] *)
Definition pushUndo (e : UndoEntry D) st : State D :=
  let st := set_undoStack (undoStack st ++ [e]) st in
  set_ui (set_undoBtn false (ui st)) st.
End Updates.

(** ** Number formatting *)

Definition twoDigits (n : Z) : string :=
  if (n <? 10)%Z then "0" +:+ pretty n else pretty n.

(** [x.toFixed(2)]: the decimal numeral with two fraction digits that
    is nearest to [x], the larger one on a tie; a negative [x] is
    formatted as [-] followed by the format of its magnitude. *)
Definition toFixed2 (x : Q) : string :=
  let n := Qfloor (Qabs x * 100 + (1 # 2)) in
  (match (x ?= 0)%Q with Lt => "-" | _ => "" end)
    +:+ pretty (n / 100)%Z +:+ "." +:+ twoDigits (n mod 100)%Z.

(** ** Zoom and scroll arithmetic *)

(** [a / b] for two finite numbers, the divisor read from the state.
    A zero divisor gives an infinity with the sign of the dividend, and
    [0 / 0] is [NaN]. *)
Definition jsDiv (a b : Q) : JsFloat :=
  if Qeq_bool b 0 then
    match (a ?= 0)%Q with
    | Gt => Infinity
    | Lt => NegInfinity
    | Eq => NaN
    end
  else Num (a / b).

(** [Math.min(a, b)] and [Math.max(a, b)]: [NaN] when an argument is. *)
Definition jsMin (a b : JsFloat) : JsFloat :=
  match a, b with
  | NaN, _ | _, NaN => NaN
  | NegInfinity, _ | _, NegInfinity => NegInfinity
  | Infinity, x | x, Infinity => x
  | Num x, Num y => Num (Qmin x y)
  end.

Definition jsMax (a b : JsFloat) : JsFloat :=
  match a, b with
  | NaN, _ | _, NaN => NaN
  | Infinity, _ | _, Infinity => Infinity
  | NegInfinity, x | x, NegInfinity => x
  | Num x, Num y => Num (Qmax x y)
  end.

(** An infinity times the finite number [x]: [NaN] for zero, otherwise
    the infinity with the product of the signs. *)
Definition scaleInfinity (positive : bool) (x : Q) : JsFloat :=
  match (x ?= 0)%Q with
  | Eq => NaN
  | Gt => if positive then Infinity else NegInfinity
  | Lt => if positive then NegInfinity else Infinity
  end.

(** [a * b] *)
Definition jsMul (a b : JsFloat) : JsFloat :=
  match a, b with
  | NaN, _ | _, NaN => NaN
  | Num x, Num y => Num (x * y)
  | Num x, Infinity | Infinity, Num x => scaleInfinity true x
  | Num x, NegInfinity | NegInfinity, Num x => scaleInfinity false x
  | Infinity, Infinity | NegInfinity, NegInfinity => Infinity
  | Infinity, NegInfinity | NegInfinity, Infinity => NegInfinity
  end.

(** [a - b]: the difference of two equal infinities is [NaN]. *)
Definition jsSub (a b : JsFloat) : JsFloat :=
  match a, b with
  | NaN, _ | _, NaN => NaN
  | Num x, Num y => Num (x - y)
  | Infinity, Infinity | NegInfinity, NegInfinity => NaN
  | Infinity, _ | _, NegInfinity => Infinity
  | NegInfinity, _ | _, Infinity => NegInfinity
  end.

(** The scroll offset computed by [centerOnTime(timeRatio, pxPerSec,
    containerWidth)], [totalDuration] being [getDuration()]. *)
Definition centerOnTime (timeRatio pxPerSec : JsFloat)
    (containerWidth totalDuration : Q) : JsFloat :=
  let totalWidth := jsMul pxPerSec (Num totalDuration) in
  let centerPx := jsMul timeRatio totalWidth in
  let targetScroll := jsSub centerPx (Num (containerWidth / 2)) in
  let maxScroll := jsMax (Num 0) (jsSub totalWidth (Num containerWidth)) in
  jsMax (Num 0) (jsMin targetScroll maxScroll).

(** The numbers [zoomToSegment] computes from the chunk-local bounds of
    the segment, [getDuration()] and [elements.waveform.clientWidth],
    and hands to [zoom], to the scroll container and to [seekTo]. *)
Definition zoomCalc (localStart localEnd totalDuration containerWidth : Q)
  : View :=
  let segmentDuration := (localEnd - localStart)%Q in
  let targetRatio := (1 # 2)%Q in
  let visibleDuration := (segmentDuration / targetRatio)%Q in
  let pxPerSec := jsDiv containerWidth visibleDuration in
  let minZoom := jsDiv containerWidth totalDuration in
  let maxZoom := Num 500 in
  let clampedPxPerSec := jsMax minZoom (jsMin maxZoom pxPerSec) in
  let segmentCenter := ((localStart + localEnd) / 2)%Q in
  let centerRatio := jsDiv segmentCenter totalDuration in
  mkView clampedPxPerSec
    (centerOnTime centerRatio clampedPxPerSec containerWidth totalDuration)
    (jsDiv localStart totalDuration).

(** ** Functions common to the two builds *)

(** The assignments [undo()] makes on the segment it found:
    [start_sec] and [end_sec] when ['oldStart' in lastChange], [text]
    when ['oldText' in lastChange], nothing for an entry that has
    neither key. *)
Definition restoreFields (lastChange : Edit) (segment : Segment) : Segment :=
  match lastChange with
  | EditTimes _ oldStart oldEnd => set_times oldStart oldEnd segment
  | EditText _ oldText => set_text oldText segment
  | EditTime _ _ => segment
  end.

(** The object [updates] that [undo()] fills alongside. *)
Definition restoredUpdates (lastChange : Edit) : Updates :=
  match lastChange with
  | EditTimes _ oldStart oldEnd =>
      mkUpdates (Some oldStart) (Some oldEnd) None None None
  | EditText _ oldText => mkUpdates None None (Some oldText) None None
  | EditTime _ _ => noUpdates
  end.

Section Editor.
Context {D : Type}.
Variable net : list Request -> Request -> bool.
Implicit Type st : State D.

(** One call through [api]: the request is logged and the oracle says
    whether the awaited promise resolves. *)
Definition fetch (r : Request) st : State D * bool :=
  (set_requests (requests st ++ [r]) st, net (requests st) r).

(** [saveSegmentUpdate(segmentId, updates)] *)
Definition saveSegmentUpdate (segmentId : Z) (updates : Updates) st
  : State D :=
  let st := setStatus "Saving..." "saving" st in
  let '(st, ok) := fetch (PUT segmentId updates) st in
  if ok then setStatus "Saved" "saved" st
  else setStatus "Save failed" "error" st.

(** The loop [for (const segmentId of ids) await api.deleteSegment(segmentId)]:
    [true] when every call resolved, [false] as soon as one rejects
    (the rest of the loop is skipped by the exception). *)
Fixpoint deleteEach (ids : list Z) st : State D * bool :=
  match ids with
  | [] => (st, true)
  | segmentId :: rest =>
      let '(st, ok) := fetch (DELETE segmentId) st in
      if ok then deleteEach rest st else (st, false)
  end.

(** [saveAll()] *)
Definition saveAll st : State D :=
  let deletedCount := length (deletedSegments st) in
  if bool_decide (deletedCount = 0%nat) then
    let st := setStatus "All changes saved" "saved" st in
    set_hasUnsavedChanges false st
  else
    let st := setStatus "Saving deletions..." "saving" st in
    let '(st, ok) := deleteEach (deletedSegments st) st in
    if ok then
      let st := set_deletedSegments [] st in
      let st := set_undoStack (filter (λ e, notDelete e = true) (undoStack st)) st in
      let st := refreshUndoBtn st in
      let st :=
        setStatus ("Saved (" +:+ pretty deletedCount +:+ " segment"
                   +:+ (if bool_decide (1 < deletedCount)%nat then "s" else "")
                   +:+ " deleted)") "saved" st in
      set_hasUnsavedChanges false st
    else setStatus "Save failed" "error" st.

(** [zoomToSegment(segmentId)]: the lookup is by strict equality with
    a number. *)
Definition zoomToSegment (segmentId : Z) st : State D :=
  match find (λ s, strictEq (segment_id s) (IdNum segmentId)) (segments st),
        currentChunk st with
  | Some segment, Some chunk =>
      let chunkStart := start_time chunk in
      let localStart := (start_sec segment - chunkStart)%Q in
      let localEnd := (end_sec segment - chunkStart)%Q in
      set_ws_view
        (Some (zoomCalc localStart localEnd (ws_duration st)
                 (waveform_clientWidth st))) st
  | _, _ => st
  end.

(** [handleRegionUpdate(region)], called when a drag or a resize
    ends.  [None] is the [TypeError] raised by
    [state.currentChunk.start_time] when no chunk is loaded. *)
Definition handleRegionUpdate (region : Region) st : option (State D) :=
  let segmentId := parseInt (region_id region) in
  match findIndex (λ s, strictEq (segment_id s) (IdNum segmentId))
          (segments st) with
  | None => Some st
  | Some i =>
      match segments st !! i, currentChunk st with
      | Some segment, Some chunk =>
          let chunkStart := start_time chunk in
          let newStartSec := (region_start region + chunkStart)%Q in
          let newEndSec := (region_end region + chunkStart)%Q in
          let st :=
            pushUndo (EditEntry (EditTimes segmentId (start_sec segment)
                                   (end_sec segment))) st in
          let st :=
            set_segments (alter (set_times newStartSec newEndSec) i
                            (segments st)) st in
          let st := set_hasUnsavedChanges true st in
          Some (saveSegmentUpdate segmentId
                  (mkUpdates (Some newStartSec) (Some newEndSec) None None None)
                  st)
      | _, _ => None
      end
  end.

(** [finishEdit(save)] of [startTextEdit(cell, segment)], where
    [segment] is the object at index [i] of [state.segments] and
    [newText] is the value of the input.  [originalText] is read when
    the edit is committed. *)
Definition finishTextEdit (i : nat) (newText : string) (save : bool) st
  : State D :=
  match segments st !! i with
  | None => st
  | Some segment =>
      let originalText := text segment in
      if save && negb (String.eqb newText originalText) then
        let st := pushUndo (EditEntry (EditText (segment_id segment)
                                         originalText)) st in
        let st := set_segments (alter (set_text newText) i (segments st)) st in
        saveSegmentUpdate (parseInt (segment_id segment))
          (mkUpdates None None (Some newText) None None) st
      else st
  end.

(** The [else] branch of [undo()]: [lastChange], already popped, has
    no [type].  [selectSegment] is the build's own. *)
Definition undoEdit (selectSegment : JsId -> State D -> State D)
    (lastChange : Edit) st : State D :=
  let segmentId := edit_segmentId lastChange in
  match findIndex (λ s, strictEq (segment_id s) segmentId) (segments st) with
  | None => refreshUndoBtn st
  | Some i =>
      let updates := restoredUpdates lastChange in
      let st :=
        set_segments (alter (restoreFields lastChange) i (segments st)) st in
      let st :=
        match selectedSegmentId st with
        | Some sel =>
            if falsyId (Some sel) then st else selectSegment (IdNum sel) st
        | None => st
        end in
      let st := saveSegmentUpdate (parseInt segmentId) updates st in
      refreshUndoBtn st
  end.
End Editor.

(** [state.undoStack.pop()]: the array without its last element, and
    that element; [None] on an empty array. *)
Definition pop {A : Type} (l : list A) : option (list A * A) :=
  match reverse l with
  | [] => None
  | x :: r => Some (reverse r, x)
  end.

(** The text written to [elements.selectedInfo] by [selectSegment]. *)
Definition selectedText (id : Z) (segment : Segment) (suffix : string)
  : string :=
  "Selected: Segment " +:+ pretty id +:+ " | Duration: "
    +:+ toFixed2 (end_sec segment - start_sec segment) +:+ "s" +:+ suffix.

(** ** The soft-delete build, [src/frontend/app.js] *)

Module SoftDelete.
Section Build.
Variable net : list Request -> Request -> bool.
(** [parseFloat], applied to the text typed in a time cell. *)
Variable parseFloat : string -> JsNumber.
Implicit Type st : State Z.

(** [selectSegment(segmentId)]: the lookup uses [==]. *)
Definition selectSegment (segmentId : JsId) st : State Z :=
  let id := normalizeId segmentId in
  let st := set_selectedSegmentId (Some id) st in
  let segment :=
    find (λ s, looseEq (segment_id s) (IdNum id)) (segments st) in
  let st :=
    set_ui (set_deleteBtn
              (match segment with
               | None => true
               | Some s => markedForDeletion s
               end) (ui st)) st in
  let st :=
    match segment with
    | Some s =>
        let status :=
          if markedForDeletion s then " (marked for deletion)" else "" in
        set_ui (set_selectedInfo (selectedText id s status) (ui st)) st
    | None => st
    end in
  zoomToSegment id st.

(** [deleteSelectedSegment()]: marks the selected segment. *)
Definition deleteSelectedSegment st : State Z :=
  match selectedSegmentId st with
  | None => st
  | Some segmentId =>
    if falsyId (Some segmentId) then st else
    match findIndex (λ s, looseEq (segment_id s) (IdNum segmentId))
            (segments st) with
    | None => st
    | Some segmentIndex =>
      match segments st !! segmentIndex with
      | None => st
      | Some segment =>
        if markedForDeletion segment then st else
        let st := pushUndo (DeleteEntry segmentId) st in
        let st :=
          set_segments (alter (set_marked true) segmentIndex (segments st))
            st in
        let st :=
          set_deletedSegments (deletedSegments st ++ [segmentId]) st in
        let st :=
          set_ui (set_selectedInfo
                    "Segment marked for deletion (undo available)" (ui st))
            st in
        let st := set_hasUnsavedChanges true st in
        let st := set_ui (set_finalizeBtn false (ui st)) st in
        let nextSegment :=
          findFrom 0
            (λ i s, bool_decide (segmentIndex < i)%nat
                    && negb (markedForDeletion s))
            (segments st) in
        let prevSegment :=
          findFrom 0
            (λ i s, bool_decide
                      (length (segments st) - 1 - i < segmentIndex)%nat
                    && negb (markedForDeletion s))
            (reverse (segments st)) in
        match nextSegment, prevSegment with
        | Some s, _ => selectSegment (segment_id s) st
        | None, Some s => selectSegment (segment_id s) st
        | None, None =>
            let st := set_selectedSegmentId None st in
            set_ui (set_deleteBtn true (ui st)) st
        end
      end
    end
  end.

(** [undo()] *)
Definition undo st : State Z :=
  match pop (undoStack st) with
  | None => st
  | Some (rest, lastChange) =>
    let st := set_undoStack rest st in
    match lastChange with
    | DeleteEntry segmentId =>
      let st :=
        match findIndex (λ s, looseEq (segment_id s) (IdNum segmentId))
                (segments st) with
        | Some i =>
            let st :=
              set_segments (alter (set_marked false) i (segments st)) st in
            let st :=
              set_deletedSegments
                (removeFirst segmentId (deletedSegments st)) st in
            let hasDeleted := existsb markedForDeletion (segments st) in
            let st := set_ui (set_finalizeBtn (negb hasDeleted) (ui st)) st in
            let st := selectSegment (IdNum segmentId) st in
            set_ui (set_selectedInfo
                      ("Restored: Segment " +:+ pretty segmentId) (ui st)) st
        | None => st
        end in
      refreshUndoBtn st
    | EditEntry e => undoEdit net selectSegment e st
    end
  end.

(** [finishEdit(save)] of [startTimeEdit(cell, segment)]: [segment] is
    the object at index [i], [isStart] tells whether the cell is the
    start column, [newTime] is the value of the input. *)
Definition finishTimeEdit (i : nat) (isStart : bool) (newTime : string)
    (save : bool) st : State Z :=
  match segments st !! i with
  | None => st
  | Some segment =>
      let originalTime :=
        if isStart then start_sec segment else end_sec segment in
      if save && negb (String.eqb newTime (toFixed2 originalTime)) then
        let st :=
          pushUndo (EditEntry (EditTime (segment_id segment)
                                 (toFixed2 originalTime))) st in
        let segment' :=
          if isStart then set_seg_start_time (parseFloat newTime) segment
          else set_seg_end_time (parseFloat newTime) segment in
        let st := set_segments (<[i := segment']> (segments st)) st in
        saveSegmentUpdate net (parseInt (segment_id segment))
          (mkUpdates None None None (seg_start_time segment')
             (seg_end_time segment')) st
      else st
  end.

(** [finalizeDeletes()] *)
Definition finalizeDeletes st : State Z :=
  let deletedSegs :=
    filter (λ s, markedForDeletion s = true) (segments st) in
  if bool_decide (length deletedSegs = 0%nat) then
    setStatus "No segments to finalize" "saved" st
  else
    let st := setStatus "Finalizing deletions..." "saving" st in
    let '(st, ok) :=
      deleteEach net (map (λ s, parseInt (segment_id s)) deletedSegs) st in
    if ok then
      let st :=
        set_segments
          (filter (λ s, markedForDeletion s = false) (segments st)) st in
      let st := set_deletedSegments [] st in
      let st :=
        set_undoStack (filter (λ e, notDelete e = true) (undoStack st)) st in
      let st := refreshUndoBtn st in
      let st := set_ui (set_finalizeBtn true (ui st)) st in
      let st :=
        setStatus ("Deleted " +:+ pretty (length deletedSegs) +:+ " segment"
                   +:+ (if bool_decide (1 < length deletedSegs)%nat
                        then "s" else "")) "saved" st in
      set_hasUnsavedChanges false st
    else setStatus "Failed to delete segments" "error" st.
End Build.
End SoftDelete.

(** ** The immediate-delete build, [src/unnamed/part_000] *)

Module HardDelete.
Section Build.
Variable net : list Request -> Request -> bool.
Implicit Type st : State (Segment * nat).

(** [selectSegment(segmentId)]: the lookup uses [===]. *)
Definition selectSegment (segmentId : JsId) st : State (Segment * nat) :=
  let id := normalizeId segmentId in
  let st := set_selectedSegmentId (Some id) st in
  let st := zoomToSegment id st in
  match find (λ s, strictEq (segment_id s) (IdNum id)) (segments st) with
  | Some segment =>
      let st := set_ui (set_selectedInfo (selectedText id segment "") (ui st)) st in
      set_ui (set_deleteBtn false (ui st)) st
  | None => set_ui (set_deleteBtn true (ui st)) st
  end.

(** [deleteSelectedSegment()]: removes the selected segment from the
    array and keeps a copy of it, with its index, in the undo entry. *)
Definition deleteSelectedSegment st : State (Segment * nat) :=
  match selectedSegmentId st with
  | None => st
  | Some segmentId =>
    if falsyId (Some segmentId) then st else
    match findIndex (λ s, strictEq (segment_id s) (IdNum segmentId))
            (segments st) with
    | None => st
    | Some segmentIndex =>
      match segments st !! segmentIndex with
      | None => st
      | Some segment =>
        let st := pushUndo (DeleteEntry (segment, segmentIndex)) st in
        let st :=
          set_deletedSegments (deletedSegments st ++ [segmentId]) st in
        let st := set_segments (delete segmentIndex (segments st)) st in
        let st := set_selectedSegmentId None st in
        let st :=
          set_ui (set_selectedInfo "Segment deleted (undo available)" (ui st))
            st in
        let st := set_ui (set_deleteBtn true (ui st)) st in
        let st := set_hasUnsavedChanges true st in
        if bool_decide (0 < length (segments st))%nat then
          let nextIndex := (segmentIndex `min` (length (segments st) - 1))%nat in
          match segments st !! nextIndex with
          | Some s => selectSegment (segment_id s) st
          | None => st
          end
        else st
      end
    end
  end.

(** [state.deletedSegments.indexOf(id)] then [splice]: the array holds
    numbers, so a string id is never found in it. *)
Definition forgetDeleted (id : JsId) (l : list Z) : list Z :=
  match id with
  | IdNum n => removeFirst n l
  | IdStr _ => l
  end.

(** [undo()] *)
Definition undo st : State (Segment * nat) :=
  match pop (undoStack st) with
  | None => st
  | Some (rest, lastChange) =>
    let st := set_undoStack rest st in
    match lastChange with
    | DeleteEntry (restoredSegment, index) =>
      let st :=
        set_deletedSegments
          (forgetDeleted (segment_id restoredSegment) (deletedSegments st))
          st in
      let st :=
        set_segments (spliceIn index restoredSegment (segments st)) st in
      let st := selectSegment (segment_id restoredSegment) st in
      let st :=
        set_ui (set_selectedInfo
                  ("Restored: Segment " +:+ idText (segment_id restoredSegment))
                  (ui st)) st in
      refreshUndoBtn st
    | EditEntry e => undoEdit net selectSegment e st
    end
  end.
End Build.
End HardDelete.

(** ** The two builds side by side *)

Inductive Build : Type := Soft | Hard.

(** The payload of a delete entry of the undo stack. *)
Definition payload (b : Build) : Type :=
  match b with
  | Soft => Z
  | Hard => (Segment * nat)%type
  end.

Definition selectSegment_of (b : Build)
  : JsId -> State (payload b) -> State (payload b) :=
  match b with
  | Soft => SoftDelete.selectSegment
  | Hard => HardDelete.selectSegment
  end.

Definition undo_of (b : Build) (net : list Request -> Request -> bool)
  : State (payload b) -> State (payload b) :=
  match b with
  | Soft => SoftDelete.undo net
  | Hard => HardDelete.undo net
  end.

(** [f] writes neither the store, the history, the pending deletions,
    the unsaved flag nor the request log. *)
Definition keeps_store {D : Type} (f : State D -> State D) : Prop :=
  ∀ st, segments (f st) = segments st ∧ undoStack (f st) = undoStack st
        ∧ deletedSegments (f st) = deletedSegments st
        ∧ hasUnsavedChanges (f st) = hasUnsavedChanges st
        ∧ requests (f st) = requests st.

(** ** Further functions of the front end *)

Definition deleteSelectedSegment_of (b : Build)
  : State (payload b) -> State (payload b) :=
  match b with
  | Soft => SoftDelete.deleteSelectedSegment
  | Hard => HardDelete.deleteSelectedSegment
  end.

(** [navigateSegment(direction)], bound to the left and right arrow
    keys with [direction] -1 and 1.  [findIndex] compares with [===]
    against [state.selectedSegmentId], so [null] matches nothing and the
    index is -1. *)
Definition navigateSegment (b : Build) (direction : Z)
    (st : State (payload b)) : State (payload b) :=
  let currentIndex : Z :=
    match selectedSegmentId st with
    | Some sel =>
        match findIndex (λ s, strictEq (segment_id s) (IdNum sel))
                (segments st) with
        | Some i => Z.of_nat i
        | None => (-1)%Z
        end
    | None => (-1)%Z
    end in
  let newIndex := (currentIndex + direction)%Z in
  if ((0 <=? newIndex) && (newIndex <? Z.of_nat (length (segments st))))%Z then
    match segments st !! Z.to_nat newIndex with
    | Some segment => selectSegment_of b (segment_id segment) st
    | None => st
    end
  else st.

(** *** Sequences of user actions *)

(** The actions of the user that reach the store: the end of a drag or
    resize, the commit of a text cell, a selection (a click on a row or
    on a region), an arrow key, the delete key or button. *)
Inductive Action : Type :=
  | ActRegionUpdate (region : Region)
  | ActTextEdit (i : nat) (newText : string) (save : bool)
  | ActSelect (segmentId : JsId)
  | ActNavigate (direction : Z)
  | ActDelete.

(** The handler of one action; [None] when the handler throws. *)
Definition perform (b : Build) (net : list Request -> Request -> bool)
    (a : Action) (st : State (payload b)) : option (State (payload b)) :=
  match a with
  | ActRegionUpdate region => handleRegionUpdate net region st
  | ActTextEdit i newText save => Some (finishTextEdit net i newText save st)
  | ActSelect segmentId => Some (selectSegment_of b segmentId st)
  | ActNavigate direction => Some (navigateSegment b direction st)
  | ActDelete => Some (deleteSelectedSegment_of b st)
  end.

(** The handlers of a sequence of actions, one after the other. *)
Fixpoint performAll (b : Build) (net : list Request -> Request -> bool)
    (acts : list Action) (st : State (payload b))
  : option (State (payload b)) :=
  match acts with
  | [] => Some st
  | a :: acts' => perform b net a st ≫= performAll b net acts'
  end.

(** [undo()] called [n] times. *)
Definition undoTimes (b : Build) (net : list Request -> Request -> bool)
    (n : nat) (st : State (payload b)) : State (payload b) :=
  Nat.iter n (undo_of b net) st.

(** *** The region overlay *)

(** The options given to [state.regions.addRegion]: id, bounds in
    chunk-local seconds, colour. *)
Record Marker : Type := mkMarker {
  marker_region : Region;
  marker_color : string
}.

Definition selectedColor : string := "rgba(255, 215, 0, 0.5)".
Definition gapColor : string := "rgba(136, 136, 136, 0.3)".
Definition defaultColor : string := "rgba(79, 74, 133, 0.4)".
Definition deletedColor : string := "rgba(255, 0, 0, 0.3)".

(** [segment.gap_type && segment.gap_type !== ''] *)
Definition isGap (segment : Segment) : bool :=
  negb (String.eqb (gap_type segment) "").

(** The body of the [forEach] of [createRegions()] for one segment:
    [None] when the segment lies outside the chunk and is skipped. *)
Definition regionFor (chunkStart duration : Q) (segment : Segment)
  : option Marker :=
  let localStart := (start_sec segment - chunkStart)%Q in
  let localEnd := (end_sec segment - chunkStart)%Q in
  if Qlt_le_dec localEnd 0 then None
  else if Qlt_le_dec duration localStart then None
  else
    Some (mkMarker
            (mkRegion (IdStr (parseInt (segment_id segment)))
               (Qmax 0 localStart) (Qmin duration localEnd))
            (if isGap segment then gapColor else defaultColor)).

(** [highlightRegion(segmentId)] applied to the regions [regions]. *)
Definition highlightRegion {D : Type} (segmentId : Z) (st : State D)
    (regions : list Marker) : list Marker :=
  (λ region,
     let id := parseInt (region_id (marker_region region)) in
     let isSelected := (id =? segmentId)%Z in
     let segment :=
       find (λ s, strictEq (segment_id s) (IdNum id)) (segments st) in
     let gap :=
       match segment with
       | Some s => isGap s
       | None => false
       end in
     mkMarker (marker_region region)
       (if isSelected then selectedColor
        else if gap then gapColor else defaultColor)) <$> regions.

(** [createRegions()]: the regions on the waveform after the call. *)
Definition createRegions {D : Type} (st : State D) : list Marker :=
  match currentChunk st with
  | None => []
  | Some chunk =>
      let regions :=
        omap (regionFor (start_time chunk) (ws_duration st)) (segments st) in
      match selectedSegmentId st with
      | Some sel =>
          if falsyId (Some sel) then regions
          else highlightRegion sel st regions
      | None => regions
      end
  end.

(** *** Time read-out *)

(** [s.padStart(n, '0')] *)
Definition padStart (n : nat) (s : string) : string :=
  String.concat "" (replicate (n - String.length s) "0") +:+ s.

(** [seconds % 60]: the remainder has the sign of [seconds]. *)
Definition rem60 (seconds : Q) : Q :=
  let q := (seconds / 60)%Q in
  let t := if Qlt_le_dec q 0 then Qceiling q else Qfloor q in
  (seconds - 60 * inject_Z t)%Q.

(** [formatTime(seconds)] *)
Definition formatTime (seconds : Q) : string :=
  let mins := Qfloor (seconds / 60) in
  let secs := toFixed2 (rem60 seconds) in
  padStart 2 (pretty mins) +:+ ":" +:+ padStart 5 secs.

(** *** Chunks *)

Section MoreUpdates.
Context {D : Type}.
Implicit Type st : State D.

Definition set_currentChunk (v : option Chunk) st : State D :=
  mkState (segments st) v (selectedSegmentId st) (undoStack st)
    (deletedSegments st) (hasUnsavedChanges st) (ui st) (ws_duration st)
    (waveform_clientWidth st) (ws_view st) (requests st).

Definition set_ws_duration (v : Q) st : State D :=
  mkState (segments st) (currentChunk st) (selectedSegmentId st)
    (undoStack st) (deletedSegments st) (hasUnsavedChanges st) (ui st) v
    (waveform_clientWidth st) (ws_view st) (requests st).
End MoreUpdates.

(** [state] with the parts that chunk navigation uses: [state.chunks],
    [state.currentChunkId], the two chunk buttons and the regions on
    the waveform.  The labels that show the chunk number and the file
    name are not modelled. *)
Record Session (D : Type) : Type := mkSession {
  app : State D;
  chunks : list Chunk;
  currentChunkId : Z;
  prevChunkBtn_disabled : bool;
  nextChunkBtn_disabled : bool;
  overlay : list Marker
}.

Arguments mkSession {D}.
Arguments app {D} _.
Arguments chunks {D} _.
Arguments currentChunkId {D} _.
Arguments prevChunkBtn_disabled {D} _.
Arguments nextChunkBtn_disabled {D} _.
Arguments overlay {D} _.

Section Chunks.
Context {D : Type}.
(** [api.getSegments(chunkId)]: the [segments] of the answer, [None]
    when the promise rejects. *)
Variable getSegments : Z -> option (list Segment).
(** [state.wavesurfer.load(url)]: the duration of the decoded audio,
    [None] when the promise rejects. *)
Variable loadAudio : Z -> option Q.
Implicit Type s : Session D.

Definition set_app (v : State D) s : Session D :=
  mkSession v (chunks s) (currentChunkId s) (prevChunkBtn_disabled s)
    (nextChunkBtn_disabled s) (overlay s).

(** [loadChunk(chunkId)].  The flag is [false] when an awaited promise
    rejects and the function ends with that exception.  Loading the
    audio fires [ready], which rebuilds the regions. *)
Definition loadChunk (chunkId : Z) s : Session D * bool :=
  let a := setStatus "Loading..." "saving" (app s) in
  let found := find (λ c, (chunk_id c =? chunkId)%Z) (chunks s) in
  let a := set_currentChunk found a in
  match found with
  | None => (set_app (setStatus "Chunk not found" "error" a) s, true)
  | Some _ =>
      let s :=
        mkSession a (chunks s) chunkId (chunkId <=? 1)%Z
          (Z.of_nat (length (chunks s)) <=? chunkId)%Z (overlay s) in
      match getSegments chunkId with
      | None => (s, false)
      | Some segs =>
          let s := set_app (set_segments segs (app s)) s in
          match loadAudio chunkId with
          | None => (s, false)
          | Some duration =>
              let a := set_ws_duration duration (app s) in
              (mkSession (setStatus "" "" a) (chunks s) (currentChunkId s)
                 (prevChunkBtn_disabled s) (nextChunkBtn_disabled s)
                 (createRegions a), true)
          end
      end
  end.

(** The click handlers of the previous and next chunk buttons. *)
Definition prevChunk s : Session D * bool :=
  if (1 <? currentChunkId s)%Z then loadChunk (currentChunkId s - 1) s
  else (s, true).

Definition nextChunk s : Session D * bool :=
  if (currentChunkId s <? Z.of_nat (length (chunks s)))%Z
  then loadChunk (currentChunkId s + 1) s
  else (s, true).
End Chunks.

(** One [undo()] takes any state that has the store and the history of
    [st1] back to the store and the history of [st]; or [st1] has those
    of [st] already. *)
Definition reverts (b : Build) (net : list Request -> Request -> bool)
    (st st1 : State (payload b)) : Prop :=
  (segments st1 = segments st ∧ undoStack st1 = undoStack st)
  ∨ (∃ e, undoStack st1 = undoStack st ++ [e]
          ∧ ∀ X : State (payload b),
              segments X = segments st1 → undoStack X = undoStack st1 →
              segments (undo_of b net X) = segments st
              ∧ undoStack (undo_of b net X) = undoStack st).

(** ** Reference notions used in the statements *)

(** [x] clamped to the interval [[lo, hi]], as the specification words
    it: the bound that [x] oversteps, [x] itself inside the interval. *)
Definition clampTo (lo hi x : Q) : Q :=
  if Qlt_le_dec x lo then lo
  else if Qlt_le_dec hi x then hi
  else x.

(** The same for an [x] that may be infinite: [Infinity] oversteps
    [hi] and [-Infinity] oversteps [lo]. *)
Definition clampNum (lo hi : Q) (x : JsFloat) : JsFloat :=
  match x with
  | Num q => Num (clampTo lo hi q)
  | Infinity => Num hi
  | NegInfinity => Num lo
  | NaN => NaN
  end.

(** [a] and [b] are the same number; [NaN] is no number. *)
Definition sameNumber (a b : JsFloat) : Prop :=
  match a, b with
  | Num x, Num y => (x == y)%Q
  | Infinity, Infinity | NegInfinity, NegInfinity => True
  | _, _ => False
  end.

(** The segment [segment] at index [i] is the first of [l] whose id has
    the numeric value [n]; and the first whose id is the number [n]. *)
Definition firstWithValue (n : Z) (l : list Segment) (i : nat)
    (segment : Segment) : Prop :=
  l !! i = Some segment ∧ parseInt (segment_id segment) = n
  ∧ ∀ j y, (j < i)%nat → l !! j = Some y → parseInt (segment_id y) ≠ n.

Definition firstWithNumber (n : Z) (l : list Segment) (i : nat)
    (segment : Segment) : Prop :=
  l !! i = Some segment ∧ segment_id segment = IdNum n
  ∧ ∀ j y, (j < i)%nat → l !! j = Some y → segment_id y ≠ IdNum n.

(** The [k]-th of the calls [DELETE ids[0]], [DELETE ids[1]], ... made
    one after the other from the log [log] resolves. *)
Definition resolves (net : list Request -> Request -> bool)
    (log : list Request) (ids : list Z) (k : nat) : Prop :=
  ∀ id, ids !! k = Some id →
        net (log ++ (DELETE <$> take k ids)) (DELETE id) = true.

(** ** Sample data *)

(** [parseFloat] on a plain decimal numeral: an optional [-], digits,
    an optional fraction; reading stops at the first other character.
    Exponents and leading white space are not read.  It stands for
    [parseFloat] in the examples; the general statements hold for any
    [parseFloat]. *)
Definition digitOf (c : ascii) : option Z :=
  let n := Z.of_nat (nat_of_ascii c) in
  if ((48 <=? n) && (n <=? 57))%Z then Some (n - 48)%Z else None.

Fixpoint readDigits (s : string) (acc : Z) (k : nat) : Z * nat * string :=
  match s with
  | String c s' =>
      match digitOf c with
      | Some d => readDigits s' (10 * acc + d)%Z (S k)
      | None => (acc, k, s)
      end
  | EmptyString => (acc, k, s)
  end.

Definition parseDecimal (s : string) : JsNumber :=
  let '(negative, s1) :=
    match s with
    | String "-"%char r => (true, r)
    | _ => (false, s)
    end in
  let '(whole, k1, r1) := readDigits s1 0 0 in
  let '(frac, k2) :=
    match r1 with
    | String "."%char r2 => let '(f, k, _) := readDigits r2 0 0 in (f, k)
    | _ => (0%Z, 0%nat)
    end in
  if bool_decide (k1 + k2 = 0)%nat then NonFinite
  else
    let magnitude :=
      Qred (Qmake (whole * 10 ^ Z.of_nat k2 + frac)
              (Z.to_pos (10 ^ Z.of_nat k2))) in
    Finite (if negative then Qopp magnitude else magnitude).

Definition sampleSegment (id : Z) (a b : Q) (t : string) : Segment :=
  mkSegment (IdNum id) 1 a b t "" false None None.

Definition sampleSegments : list Segment :=
  [sampleSegment 41 0 1 "one"; sampleSegment 42 (3 # 2) 2 "two";
   sampleSegment 43 5 6 "three"].

(** An array whose only segment has its id stored as the string
    ["42"]. *)
Definition stringIdSegment : Segment :=
  mkSegment (IdStr 42) 1 (3 # 2) 2 "two" "" false None None.

Definition sampleChunk : Chunk := mkChunk 1 0 "chunks/chunk_001.wav".

(** A loaded chunk of 100 s in a 1000 px container, with the given
    selection, history and pending deletions. *)
Definition sampleState {D : Type} (selected : option Z)
    (history : list (UndoEntry D)) (pending : list Z) : State D :=
  mkState sampleSegments (Some sampleChunk) selected history pending false
    (mkUi ("", "") "" (bool_decide (length history = 0%nat)) true true)
    100 1000 None [].

(** The same chunk when the server sends the id of its only segment
    as a string. *)
Definition stringIdState {D : Type} : State D :=
  set_segments [stringIdSegment] (sampleState None [] []).

(** A server that accepts every call, and one that rejects the
    deletion of segment [bad]. *)
Definition alwaysOk : list Request -> Request -> bool := λ _ _, true.

Definition rejectsDelete (bad : Z) : list Request -> Request -> bool :=
  λ _ r, match r with
         | DELETE id => negb (id =? bad)%Z
         | PUT _ _ => true
         end.

(** * Properties *)

(** ** Arrays *)

Lemma findIndex_lookup {A : Type} (p : A -> bool) (l : list A) (i : nat) :
  findIndex p l = Some i → ∃ x, l !! i = Some x ∧ p x = true.
Proof.
  revert i. induction l as [|y l IH]; intros i H; simpl in H; [done|].
  destruct (p y) eqn:Hy.
  - injection H as <-. by exists y.
  - destruct (findIndex p l) as [j|]; simpl in H; [|done].
    injection H as <-. simpl. by apply IH.
Qed.

(** A mutation that leaves the tested property alone does not move the
    element found. *)
Lemma findIndex_alter {A : Type} (p : A -> bool) (f : A -> A) (l : list A) (i : nat) :
  (∀ x, p (f x) = p x) → findIndex p (alter f i l) = findIndex p l.
Proof.
  intros Hf. unfold alter. revert i.
  induction l as [|y l IH]; intros [|i]; simpl; try done.
  - by rewrite Hf.
  - by rewrite IH.
Qed.

Lemma find_findIndex {A : Type} (p : A -> bool) (l : list A) (i : nat) (x : A) :
  findIndex p l = Some i → l !! i = Some x → find p l = Some x.
Proof. intros Hi Hx. unfold find. by rewrite Hi. Qed.

Lemma findIndex_absent {A : Type} (p : A -> bool) (l : list A) :
  (∀ x, x ∈ l → p x = false) → findIndex p l = None.
Proof.
  induction l as [|y l IH]; intros H; simpl; [done|].
  rewrite (H y) by apply list_elem_of_here.
  rewrite IH; [done|]. intros x Hx. apply H. by apply list_elem_of_further.
Qed.

(** [findIndex] returns the index of the first element that satisfies
    the test. *)
Lemma findIndex_first {A : Type} (p : A -> bool) (l : list A) (i : nat) (x : A) :
  l !! i = Some x → p x = true →
  (∀ j y, (j < i)%nat → l !! j = Some y → p y = false) →
  findIndex p l = Some i.
Proof.
  revert i. induction l as [|z l IH]; intros i Hx Hp Hbefore; [done|].
  destruct i as [|i]; simpl in *.
  - injection Hx as ->. by rewrite Hp.
  - rewrite (Hbefore 0%nat z) by (done || lia).
    rewrite (IH i); [done..|].
    intros j y Hj Hy. apply (Hbefore (S j) y); [lia|done].
Qed.

Lemma pop_snoc {A : Type} (l : list A) (x : A) : pop (l ++ [x]) = Some (l, x).
Proof. unfold pop. by rewrite reverse_snoc, reverse_involutive. Qed.

Lemma alter_restore {A : Type} (f g : A -> A) (l : list A) (i : nat) (x : A) :
  l !! i = Some x → g (f x) = x → alter g i (alter f i l) = l.
Proof.
  intros Hx Hgf. rewrite list_alter_alter_eq.
  rewrite <- (list_alter_id (λ y, y) l i) at 2 by done.
  apply list_alter_ext; [|done]. intros y Hy. simpl.
  rewrite Hx in Hy. by injection Hy as <-.
Qed.

(** ** What the shared helpers leave alone *)

Section Frames.
Context {D : Type}.
Variable net : list Request -> Request -> bool.
Implicit Type st : State D.

Lemma saveSegmentUpdate_store id u st :
  let st' := saveSegmentUpdate net id u st in
  segments st' = segments st ∧ undoStack st' = undoStack st
  ∧ deletedSegments st' = deletedSegments st
  ∧ hasUnsavedChanges st' = hasUnsavedChanges st
  ∧ selectedSegmentId st' = selectedSegmentId st
  ∧ requests st' = requests st ++ [PUT id u].
Proof.
  unfold saveSegmentUpdate, fetch; simpl.
  by destruct (net (requests st) (PUT id u)).
Qed.

Lemma zoomToSegment_store id st :
  let st' := zoomToSegment id st in
  segments st' = segments st ∧ undoStack st' = undoStack st
  ∧ deletedSegments st' = deletedSegments st
  ∧ hasUnsavedChanges st' = hasUnsavedChanges st
  ∧ selectedSegmentId st' = selectedSegmentId st
  ∧ requests st' = requests st ∧ ui st' = ui st.
Proof.
  unfold zoomToSegment.
  destruct (find _ (segments st)); [destruct (currentChunk st)|]; done.
Qed.

(** Every issued [DELETE] is logged, in order, up to and including
    the first one that fails. *)
Lemma deleteEach_store ids st :
  let st' := (deleteEach net ids st).1 in
  segments st' = segments st ∧ undoStack st' = undoStack st
  ∧ deletedSegments st' = deletedSegments st
  ∧ hasUnsavedChanges st' = hasUnsavedChanges st
  ∧ selectedSegmentId st' = selectedSegmentId st
  ∧ ui st' = ui st.
Proof.
  revert st. induction ids as [|id ids IH]; intros st; simpl; [done|].
  destruct (net (requests st) (DELETE id)); [|done].
  apply (IH (set_requests _ st)).
Qed.
End Frames.

Lemma soft_selectSegment_keeps x : keeps_store (SoftDelete.selectSegment x).
Proof.
  intros st. unfold SoftDelete.selectSegment.
  match goal with
  | |- context [zoomToSegment ?i ?s] =>
      destruct (zoomToSegment_store i s) as (-> & -> & -> & -> & _ & -> & _)
  end.
  simpl. by destruct (find _ (segments st)).
Qed.

Lemma hard_selectSegment_keeps x : keeps_store (HardDelete.selectSegment x).
Proof.
  intros st. unfold HardDelete.selectSegment.
  destruct (zoomToSegment_store (normalizeId x)
              (set_selectedSegmentId (Some (normalizeId x)) st))
    as (Hs & Hu & Hd & Hh & _ & Hr & _).
  destruct (find _ _); simpl; by rewrite Hs, Hu, Hd, Hh, Hr.
Qed.

Lemma selectSegment_of_keeps b x : keeps_store (selectSegment_of b x).
Proof.
  destruct b; [apply soft_selectSegment_keeps|apply hard_selectSegment_keeps].
Qed.

(** ** Undo of an edit *)

Lemma undo_of_edit b net (st : State (payload b)) rest e :
  undoStack st = rest ++ [EditEntry e] →
  undo_of b net st = undoEdit net (selectSegment_of b) e (set_undoStack rest st).
Proof.
  intros H. destruct b; simpl in *.
  - unfold SoftDelete.undo. by rewrite H, pop_snoc.
  - unfold HardDelete.undo. by rewrite H, pop_snoc.
Qed.

Lemma undoEdit_found {D : Type} net (select : JsId -> State D -> State D) e st i :
  (∀ x, keeps_store (select x)) →
  findIndex (λ s, strictEq (segment_id s) (edit_segmentId e)) (segments st)
    = Some i →
  let st' := undoEdit net select e st in
  segments st' = alter (restoreFields e) i (segments st)
  ∧ undoStack st' = undoStack st
  ∧ deletedSegments st' = deletedSegments st
  ∧ requests st' = requests st
                   ++ [PUT (parseInt (edit_segmentId e)) (restoredUpdates e)].
Proof.
  intros Hsel Hi. unfold undoEdit. rewrite Hi.
  set (st1 := set_segments _ st).
  set (st2 := match selectedSegmentId st1 with Some _ => _ | None => _ end).
  assert (segments st2 = segments st1 ∧ undoStack st2 = undoStack st1
          ∧ deletedSegments st2 = deletedSegments st1
          ∧ requests st2 = requests st1) as (H1 & H2 & H3 & H4).
  { subst st2. destruct (selectedSegmentId st1) as [sel|]; [|done].
    destruct (falsyId (Some sel)); [done|].
    destruct (Hsel (IdNum sel) st1) as (? & ? & ? & _ & ?). done. }
  destruct (saveSegmentUpdate_store net (parseInt (edit_segmentId e))
              (restoredUpdates e) st2) as (E1 & E2 & E3 & _ & _ & E4).
  simpl in *. by rewrite E1, E2, E3, E4, H1, H2, H3, H4.
Qed.

Lemma undoEdit_missing {D : Type} net (select : JsId -> State D -> State D) e st :
  findIndex (λ s, strictEq (segment_id s) (edit_segmentId e)) (segments st)
    = None →
  undoEdit net select e st = refreshUndoBtn st.
Proof. intros H. unfold undoEdit. by rewrite H. Qed.

(** C1. Edit then undo is a round trip on the segment store, in both
    builds.  A region update (the end of a drag or a resize) on a
    segment that is in the store pushes [{segmentId, oldStart, oldEnd}]
    with the values the segment had, and a text edit that changes the
    text pushes [{segmentId, oldText}]; the [undo()] that follows pops
    that entry and leaves [state.segments] exactly as it was before the
    edit, so [start_sec], [end_sec] and [text] have their prior values.
    The undo also sends the restored values to the server. *)
Theorem edit_then_undo_restores_segment
    (b : Build) (net : list Request -> Request -> bool)
    (st : State (payload b)) :
  (∀ (region : Region) (i : nat) (segment : Segment) (chunk : Chunk),
     findIndex (λ s, strictEq (segment_id s)
                       (IdNum (parseInt (region_id region))))
       (segments st) = Some i →
     segments st !! i = Some segment →
     currentChunk st = Some chunk →
     ∃ st1,
       handleRegionUpdate net region st = Some st1
       ∧ undoStack st1
         = undoStack st
           ++ [EditEntry (EditTimes (parseInt (region_id region))
                            (start_sec segment) (end_sec segment))]
       ∧ segments st1
         = <[i := set_times (region_start region + start_time chunk)
                    (region_end region + start_time chunk) segment]>
             (segments st)
       ∧ segments (undo_of b net st1) = segments st
       ∧ undoStack (undo_of b net st1) = undoStack st
       ∧ requests (undo_of b net st1)
         = requests st1
           ++ [PUT (parseInt (region_id region))
                 (mkUpdates (Some (start_sec segment))
                    (Some (end_sec segment)) None None None)])
  ∧ (∀ (i : nat) (segment : Segment) (newText : string),
       segments st !! i = Some segment →
       findIndex (λ s, strictEq (segment_id s) (segment_id segment))
         (segments st) = Some i →
       newText ≠ text segment →
       let st1 := finishTextEdit net i newText true st in
       undoStack st1
       = undoStack st ++ [EditEntry (EditText (segment_id segment)
                                       (text segment))]
       ∧ segments st1 = <[i := set_text newText segment]> (segments st)
       ∧ segments (undo_of b net st1) = segments st
       ∧ undoStack (undo_of b net st1) = undoStack st
       ∧ requests (undo_of b net st1)
         = requests st1
           ++ [PUT (parseInt (segment_id segment))
                 (mkUpdates None None (Some (text segment)) None None)]).
Proof.
  split.
  - intros region i segment chunk Hi Hseg Hchunk.
    unfold handleRegionUpdate. rewrite Hi, Hseg, Hchunk.
    eexists. split; [reflexivity|].
    match goal with
    | |- context [saveSegmentUpdate net ?id ?u ?s] =>
        destruct (saveSegmentUpdate_store net id u s) as (E1 & E2 & _);
        set (st1 := saveSegmentUpdate net id u s) in *
    end.
    simpl in E1, E2.
    assert (segments st1 !! i = Some (set_times
              (region_start region + start_time chunk)
              (region_end region + start_time chunk) segment)) as Hnew.
    { rewrite E1, list_lookup_alter_eq, Hseg. done. }
    split; [done|]. split.
    { rewrite E1, list_insert_alter. apply list_alter_ext; [|done].
      intros x Hx. rewrite Hseg in Hx. by injection Hx as <-. }
    rewrite (undo_of_edit b net st1 _ _ E2).
    destruct (undoEdit_found net (selectSegment_of b)
                (EditTimes (parseInt (region_id region)) (start_sec segment)
                   (end_sec segment))
                (set_undoStack (undoStack st) st1) i
                (selectSegment_of_keeps b)) as (F1 & F2 & _ & F4).
    { simpl. rewrite E1. by rewrite findIndex_alter. }
    simpl in F1, F2, F4. rewrite F1, F2, F4. split; [|done].
    rewrite E1. apply (alter_restore _ _ _ _ segment Hseg). by destruct segment.
  - intros i segment newText Hseg Hi Hne. unfold finishTextEdit.
    rewrite Hseg. simpl.
    destruct (String.eqb newText (text segment)) eqn:Heq.
    { apply String.eqb_eq in Heq. done. }
    simpl.
    match goal with
    | |- context [saveSegmentUpdate net ?id ?u ?s] =>
        destruct (saveSegmentUpdate_store net id u s) as (E1 & E2 & _);
        set (st1 := saveSegmentUpdate net id u s) in *
    end.
    simpl in E1, E2. split; [done|]. split.
    { rewrite E1, list_insert_alter. apply list_alter_ext; [|done].
      intros x Hx. rewrite Hseg in Hx. by injection Hx as <-. }
    rewrite (undo_of_edit b net st1 _ _ E2).
    destruct (undoEdit_found net (selectSegment_of b)
                (EditText (segment_id segment) (text segment))
                (set_undoStack (undoStack st) st1) i
                (selectSegment_of_keeps b)) as (F1 & F2 & _ & F4).
    { simpl. rewrite E1. by rewrite findIndex_alter. }
    simpl in F1, F2, F4. rewrite F1, F2, F4. split; [|done].
    rewrite E1. apply (alter_restore _ _ _ _ segment Hseg). by destruct segment.
Qed.

(** ** Soft delete *)

Lemma removeFirst_snoc_fresh (x : Z) (l : list Z) :
  x ∉ l → removeFirst x (l ++ [x]) = l.
Proof.
  unfold removeFirst, indexOf. induction l as [|y l IH]; intros Hx; simpl.
  - by rewrite Z.eqb_refl.
  - apply not_elem_of_cons in Hx as [Hxy Hx].
    destruct (Z.eqb_spec x y) as [|_]; [done|].
    specialize (IH Hx). destruct (findIndex (Z.eqb x) (l ++ [x])); simpl in *.
    + by rewrite IH.
    + by f_equal.
Qed.

Lemma removeFirst_snoc_perm (x : Z) (l : list Z) :
  removeFirst x (l ++ [x]) ≡ₚ l.
Proof.
  unfold removeFirst, indexOf. induction l as [|y l IH]; simpl.
  - by rewrite Z.eqb_refl.
  - destruct (Z.eqb_spec x y) as [->|_]; simpl.
    + by rewrite <- Permutation_cons_append.
    + destruct (findIndex (Z.eqb x) (l ++ [x])); simpl in *; by rewrite IH.
Qed.

Lemma fmap_alter_same {A B : Type} (f : A -> B) (g : A -> A) (l : list A) (i : nat) :
  (∀ x, f (g x) = f x) → f <$> alter g i l = f <$> l.
Proof.
  intros H. rewrite (list_fmap_alter f g (λ y, y)).
  - by apply list_alter_id.
  - apply Forall_forall. intros x _. apply H.
Qed.

Section SoftDeleteFacts.
Variable net : list Request -> Request -> bool.
Implicit Type st : State Z.

Lemma soft_delete_marks st segmentId i segment :
  selectedSegmentId st = Some segmentId →
  falsyId (Some segmentId) = false →
  findIndex (λ s, looseEq (segment_id s) (IdNum segmentId)) (segments st)
    = Some i →
  segments st !! i = Some segment →
  markedForDeletion segment = false →
  let st1 := SoftDelete.deleteSelectedSegment st in
  segments st1 = alter (set_marked true) i (segments st)
  ∧ undoStack st1 = undoStack st ++ [DeleteEntry segmentId]
  ∧ deletedSegments st1 = deletedSegments st ++ [segmentId]
  ∧ hasUnsavedChanges st1 = true
  ∧ requests st1 = requests st.
Proof.
  intros Hsel Hnz Hi Hseg Hm. unfold SoftDelete.deleteSelectedSegment.
  rewrite Hsel, Hnz, Hi, Hseg, Hm.
  repeat match goal with
  | |- context [match ?o with Some _ => _ | None => _ end] =>
      destruct o
  | |- context [SoftDelete.selectSegment ?x ?s] =>
      destruct (soft_selectSegment_keeps x s) as (-> & -> & -> & -> & ->)
  end; done.
Qed.

Lemma soft_undo_delete st rest segmentId i :
  undoStack st = rest ++ [DeleteEntry segmentId] →
  findIndex (λ s, looseEq (segment_id s) (IdNum segmentId)) (segments st)
    = Some i →
  let st' := SoftDelete.undo net st in
  segments st' = alter (set_marked false) i (segments st)
  ∧ undoStack st' = rest
  ∧ deletedSegments st' = removeFirst segmentId (deletedSegments st)
  ∧ hasUnsavedChanges st' = hasUnsavedChanges st
  ∧ requests st' = requests st.
Proof.
  intros Hst Hi. unfold SoftDelete.undo. rewrite Hst, pop_snoc. simpl.
  rewrite Hi. simpl.
  match goal with
  | |- context [SoftDelete.selectSegment ?x ?s] =>
      destruct (soft_selectSegment_keeps x s) as (-> & -> & -> & -> & ->)
  end.
  done.
Qed.

Lemma soft_undo_delete_missing st rest segmentId :
  undoStack st = rest ++ [DeleteEntry segmentId] →
  findIndex (λ s, looseEq (segment_id s) (IdNum segmentId)) (segments st)
    = None →
  SoftDelete.undo net st = refreshUndoBtn (set_undoStack rest st).
Proof.
  intros Hst Hi. unfold SoftDelete.undo. rewrite Hst, pop_snoc. simpl.
  by rewrite Hi.
Qed.

(** Marking changes flags only. *)
Lemma soft_delete_same_array st :
  set_marked false <$> segments (SoftDelete.deleteSelectedSegment st)
  = set_marked false <$> segments st.
Proof.
  destruct (selectedSegmentId st) as [segmentId|] eqn:Hsel;
    [|unfold SoftDelete.deleteSelectedSegment; by rewrite Hsel].
  destruct (falsyId (Some segmentId)) eqn:Hnz;
    [unfold SoftDelete.deleteSelectedSegment; by rewrite Hsel, Hnz|].
  destruct (findIndex (λ s, looseEq (segment_id s) (IdNum segmentId))
              (segments st)) as [i|] eqn:Hi;
    [|unfold SoftDelete.deleteSelectedSegment; by rewrite Hsel, Hnz, Hi].
  destruct (findIndex_lookup _ _ _ Hi) as (segment & Hseg & _).
  destruct (markedForDeletion segment) eqn:Hm;
    [unfold SoftDelete.deleteSelectedSegment;
     by rewrite Hsel, Hnz, Hi, Hseg, Hm|].
  destruct (soft_delete_marks st segmentId i segment Hsel Hnz Hi Hseg Hm)
    as (-> & _).
  by apply fmap_alter_same.
Qed.

Lemma soft_undo_delete_same_array st rest segmentId :
  undoStack st = rest ++ [DeleteEntry segmentId] →
  set_marked false <$> segments (SoftDelete.undo net st)
  = set_marked false <$> segments st.
Proof.
  intros Hst.
  destruct (findIndex (λ s, looseEq (segment_id s) (IdNum segmentId))
              (segments st)) as [i|] eqn:Hi.
  - destruct (soft_undo_delete st rest segmentId i Hst Hi) as (-> & _).
    by apply fmap_alter_same.
  - by rewrite (soft_undo_delete_missing st rest segmentId Hst Hi).
Qed.
End SoftDeleteFacts.

(** C2. Soft delete then undo.  When [state.selectedSegmentId] is set
    (truthy) and names a segment of the array that is not yet marked,
    [deleteSelectedSegment()] marks the segment where it stands and
    appends its id to [state.deletedSegments]; the [undo()] that follows
    leaves [state.segments] equal to the array before the delete (the
    segment is at the same index with [markedForDeletion = false]) and
    takes the id out of [state.deletedSegments] again.  Whatever the
    state, marking and un-marking change flags only: the array keeps its
    elements and their order. *)
Theorem soft_delete_then_undo_unmarks (net : list Request -> Request -> bool) :
  (∀ (st : State Z) (segmentId : Z) (i : nat) (segment : Segment),
     selectedSegmentId st = Some segmentId →
     falsyId (Some segmentId) = false →
     findIndex (λ s, looseEq (segment_id s) (IdNum segmentId)) (segments st)
       = Some i →
     segments st !! i = Some segment →
     markedForDeletion segment = false →
     let st1 := SoftDelete.deleteSelectedSegment st in
     let st2 := SoftDelete.undo net st1 in
     segments st1 = <[i := set_marked true segment]> (segments st)
     ∧ deletedSegments st1 = deletedSegments st ++ [segmentId]
     ∧ segments st2 = segments st
     ∧ segments st2 !! i = Some segment
     ∧ deletedSegments st2 ≡ₚ deletedSegments st
     ∧ (segmentId ∉ deletedSegments st →
        deletedSegments st2 = deletedSegments st
        ∧ segmentId ∉ deletedSegments st2)
     ∧ undoStack st2 = undoStack st)
  ∧ (∀ st : State Z,
       set_marked false <$> segments (SoftDelete.deleteSelectedSegment st)
       = set_marked false <$> segments st)
  ∧ (∀ (st : State Z) rest segmentId,
       undoStack st = rest ++ [DeleteEntry segmentId] →
       set_marked false <$> segments (SoftDelete.undo net st)
       = set_marked false <$> segments st).
Proof.
  split; [|split; [apply soft_delete_same_array
                  |apply soft_undo_delete_same_array]].
  intros st segmentId i segment Hsel Hnz Hi Hseg Hm st1 st2.
  destruct (soft_delete_marks st segmentId i segment Hsel Hnz Hi Hseg Hm)
    as (E1 & E2 & E3 & _). fold st1 in E1, E2, E3.
  assert (findIndex (λ s, looseEq (segment_id s) (IdNum segmentId))
            (segments st1) = Some i) as Hi1.
  { rewrite E1. by rewrite findIndex_alter. }
  destruct (soft_undo_delete net st1 _ _ _ E2 Hi1) as (F1 & F2 & F3 & _).
  fold st2 in F1, F2, F3.
  assert (segments st2 = segments st) as Hback.
  { rewrite F1, E1. apply (alter_restore _ _ _ _ segment Hseg).
    destruct segment; simpl in *. by rewrite Hm. }
  split.
  { rewrite E1, list_insert_alter. apply list_alter_ext; [|done].
    intros x Hx. rewrite Hseg in Hx. by injection Hx as <-. }
  split; [done|]. split; [done|]. split; [by rewrite Hback|].
  rewrite F3, E3. split; [apply removeFirst_snoc_perm|].
  split; [|done]. intros Hfresh.
  by rewrite removeFirst_snoc_fresh.
Qed.

(** ** Hard delete *)

Lemma spliceIn_delete {A : Type} (l : list A) (i : nat) (x : A) :
  l !! i = Some x → spliceIn i x (delete i l) = l.
Proof.
  intros Hx. unfold spliceIn. rewrite delete_take_drop.
  assert (length (take i l) = i) as Hlen.
  { rewrite length_take. apply lookup_lt_Some in Hx. lia. }
  rewrite take_app_length', drop_app_length' by done.
  by apply take_drop_middle.
Qed.

(** C3. Hard delete then undo.  When [state.selectedSegmentId] is set
    (truthy) and names the segment at index [i], [deleteSelectedSegment()]
    of the immediate-delete build removes exactly that element and
    records the segment with the index [i]; the [undo()] that follows
    inserts the recorded segment at index [i] again, so the array after
    the undo equals the array before the delete, every other segment in
    its place, and the id leaves [state.deletedSegments]. *)
Theorem hard_delete_then_undo_restores_array
    (net : list Request -> Request -> bool) (st : State (Segment * nat))
    (segmentId : Z) (i : nat) (segment : Segment) :
  selectedSegmentId st = Some segmentId →
  falsyId (Some segmentId) = false →
  findIndex (λ s, strictEq (segment_id s) (IdNum segmentId)) (segments st)
    = Some i →
  segments st !! i = Some segment →
  let st1 := HardDelete.deleteSelectedSegment st in
  let st2 := HardDelete.undo net st1 in
  segments st1 = delete i (segments st)
  ∧ undoStack st1 = undoStack st ++ [DeleteEntry (segment, i)]
  ∧ deletedSegments st1 = deletedSegments st ++ [segmentId]
  ∧ segments st2 = segments st
  ∧ segments st2 !! i = Some segment
  ∧ deletedSegments st2 ≡ₚ deletedSegments st
  ∧ undoStack st2 = undoStack st.
Proof.
  intros Hsel Hnz Hi Hseg st1 st2.
  assert (segments st1 = delete i (segments st)
          ∧ undoStack st1 = undoStack st ++ [DeleteEntry (segment, i)]
          ∧ deletedSegments st1 = deletedSegments st ++ [segmentId])
    as (E1 & E2 & E3).
  { subst st1. unfold HardDelete.deleteSelectedSegment.
    rewrite Hsel, Hnz, Hi, Hseg.
    repeat match goal with
    | |- context [if ?c then _ else _] => destruct c
    | |- context [match ?o with Some _ => _ | None => _ end] => destruct o
    | |- context [HardDelete.selectSegment ?x ?s] =>
        destruct (hard_selectSegment_keeps x s) as (-> & -> & -> & _)
    end; done. }
  assert (strictEq (segment_id segment) (IdNum segmentId) = true) as Hid.
  { destruct (findIndex_lookup _ _ _ Hi) as (x & Hx & Hp).
    rewrite Hseg in Hx. by injection Hx as <-. }
  assert (segment_id segment = IdNum segmentId) as Hidn.
  { destruct (segment_id segment) as [n|n]; simpl in Hid; [|done].
    by apply Z.eqb_eq in Hid as ->. }
  assert (segments st2 = spliceIn i segment (segments st1)
          ∧ deletedSegments st2
            = removeFirst segmentId (deletedSegments st1)
          ∧ undoStack st2 = undoStack st) as (F1 & F2 & F3).
  { subst st2. unfold HardDelete.undo. rewrite E2, pop_snoc.
    match goal with
    | |- context [HardDelete.selectSegment ?x ?s] =>
        destruct (hard_selectSegment_keeps x s) as (G1 & G2 & G3 & _)
    end.
    simpl in *. rewrite G1, G2, G3. simpl. by rewrite Hidn. }
  assert (segments st2 = segments st) as Hback.
  { rewrite F1, E1. by apply spliceIn_delete. }
  repeat split; try done.
  - by rewrite Hback.
  - rewrite F2, E3. apply removeFirst_snoc_perm.
Qed.

(** *** The round trips on the sample chunk *)

Lemma edit_then_undo_restores_segment_witness :
  (∃ st1 : State (payload Soft),
     handleRegionUpdate alwaysOk (mkRegion (IdStr 42) 1 3)
       (sampleState None [] []) = Some st1
     ∧ segments (undo_of Soft alwaysOk st1) = sampleSegments)
  ∧ segments (undo_of Hard alwaysOk
                (finishTextEdit alwaysOk 1 "deux" true
                   (sampleState None [] []))) = sampleSegments.
Proof.
  split.
  - destruct (proj1 (edit_then_undo_restores_segment Soft alwaysOk
                       (sampleState None [] []))
                (mkRegion (IdStr 42) 1 3) 1%nat
                (sampleSegment 42 (3 # 2) 2 "two") sampleChunk)
      as (st1 & H1 & _ & _ & H4 & _); [reflexivity..|].
    exists st1. split; [exact H1|exact H4].
  - refine (proj1 (proj2 (proj2 (proj2 (edit_then_undo_restores_segment Hard
              alwaysOk (sampleState None [] []))
              1%nat (sampleSegment 42 (3 # 2) 2 "two") "deux" _ _ _)))).
    + reflexivity.
    + reflexivity.
    + discriminate.
Defined.

Lemma soft_delete_then_undo_unmarks_witness :
  segments (SoftDelete.undo alwaysOk
              (SoftDelete.deleteSelectedSegment (sampleState (Some 42%Z) [] [])))
  = sampleSegments.
Proof.
  refine (proj1 (proj2 (proj2 (proj1 (soft_delete_then_undo_unmarks alwaysOk)
            (sampleState (Some 42%Z) [] []) 42%Z 1%nat
            (sampleSegment 42 (3 # 2) 2 "two") _ _ _ _ _))));
    reflexivity.
Defined.

Lemma hard_delete_then_undo_restores_array_witness :
  segments (HardDelete.undo alwaysOk
              (HardDelete.deleteSelectedSegment (sampleState (Some 42%Z) [] [])))
  = sampleSegments.
Proof.
  refine (proj1 (proj2 (proj2 (proj2 (hard_delete_then_undo_restores_array
            alwaysOk (sampleState (Some 42%Z) [] []) 42%Z 1%nat
            (sampleSegment 42 (3 # 2) 2 "two") _ _ _ _)))));
    reflexivity.
Defined.

(** ** Zoom and scroll *)

Ltac split_max a b :=
  let m := fresh "m" in
  destruct (Q.max_spec a b) as [[? ?]|[? ?]];
  set (m := Qmax a b) in *; clearbody m.

Ltac split_min a b :=
  let m := fresh "m" in
  destruct (Q.min_spec a b) as [[? ?]|[? ?]];
  set (m := Qmin a b) in *; clearbody m.

(** Case analysis on every [Qmax] and [Qmin] in sight, leaving linear
    goals. *)
Ltac minmax_cases :=
  repeat match goal with
  | |- context [Qmax ?a ?b] => split_max a b
  | |- context [Qmin ?a ?b] => split_min a b
  | _ : context [Qmax ?a ?b] |- _ => split_max a b
  | _ : context [Qmin ?a ?b] |- _ => split_min a b
  end.

Lemma max_min_in_range (lo hi x : Q) :
  (lo <= hi)%Q →
  (Qmax lo (Qmin hi x) == clampTo lo hi x)%Q
  ∧ (lo <= Qmax lo (Qmin hi x) <= hi)%Q.
Proof.
  intros H. unfold clampTo.
  destruct (Qlt_le_dec x lo), (Qlt_le_dec hi x); minmax_cases; split; lra.
Qed.

Lemma max_min_low_wins (lo hi x : Q) :
  (hi < lo)%Q → (Qmax lo (Qmin hi x) == lo)%Q.
Proof. intros H. minmax_cases; lra. Qed.

Lemma scroll_in_range (t m : Q) :
  (0 <= m)%Q →
  (Qmax 0 (Qmin t (Qmax 0 m)) == clampTo 0 m t)%Q
  ∧ (0 <= Qmax 0 (Qmin t (Qmax 0 m)) <= m)%Q.
Proof.
  intros H. unfold clampTo.
  destruct (Qlt_le_dec t 0), (Qlt_le_dec m t); minmax_cases; split; lra.
Qed.

Lemma jsDiv_nonzero (a b : Q) : ¬ (b == 0)%Q → jsDiv a b = Num (a / b).
Proof.
  intros H. unfold jsDiv. destruct (Qeq_bool b 0) eqn:E; [|done].
  by apply Qeq_bool_iff in E.
Qed.

Lemma jsDiv_zero (a b : Q) :
  (b == 0)%Q →
  jsDiv a b = match (a ?= 0)%Q with
              | Gt => Infinity
              | Lt => NegInfinity
              | Eq => NaN
              end.
Proof.
  intros H. unfold jsDiv. destruct (Qeq_bool b 0) eqn:E; [done|].
  apply Qeq_bool_iff in H. congruence.
Qed.

Lemma fit_all_width (z W T : Q) :
  (0 < T)%Q → (W / T <= z)%Q → (0 <= z * T - W)%Q.
Proof.
  intros HT H. apply (Qmult_le_compat_r _ _ T) in H; [|lra].
  assert (W / T * T == W)%Q as E by (field; lra). lra.
Qed.

Lemma max_ge_left (a b : Q) : (a <= Qmax a b)%Q.
Proof. minmax_cases; lra. Qed.

Lemma visible_zero (s e : Q) : ((e - s) / (1 # 2) == 0)%Q ↔ (e - s == 0)%Q.
Proof.
  assert (e - s == (e - s) / (1 # 2) * (1 # 2))%Q as E by field.
  split; intros H; [rewrite E, H; lra|].
  assert ((e - s) / (1 # 2) == (e - s) * 2)%Q as -> by field. rewrite H. lra.
Qed.

(** The clamped zoom is finite as soon as the chunk has a duration and
    the quotient [W / visibleDuration] is not [0 / 0]. *)
Lemma clamped_zoom (s e T W : Q) :
  (0 < T)%Q → ¬ ((W == 0)%Q ∧ (e - s == 0)%Q) →
  let px := jsDiv W ((e - s) / (1 # 2)) in
  let fitAll := (W / T)%Q in
  ∃ zoom : Q,
    jsMax (jsDiv W T) (jsMin (Num 500) px) = Num zoom
    ∧ (fitAll <= zoom)%Q
    ∧ ((fitAll <= 500)%Q →
       sameNumber (Num zoom) (clampNum fitAll 500 px) ∧ (zoom <= 500)%Q)
    ∧ ((500 < fitAll)%Q → (zoom == fitAll)%Q).
Proof.
  intros HT Hnan px fitAll. subst px.
  rewrite (jsDiv_nonzero W T) by lra. fold fitAll.
  destruct (Qeq_dec (e - s) 0) as [Hz|Hz].
  - rewrite jsDiv_zero by (by apply visible_zero).
    destruct (W ?= 0)%Q eqn:HW.
    + exfalso. apply Hnan. split; [by apply Qeq_alt|done].
    + exists fitAll. simpl. split; [reflexivity|]. split; [lra|].
      split; [intros H; split; [reflexivity|done]|reflexivity].
    + exists (Qmax fitAll 500). simpl. split; [reflexivity|].
      split; [apply max_ge_left|].
      split; [intros H; minmax_cases; split; lra|intros H; minmax_cases; lra].
  - rewrite jsDiv_nonzero by (by rewrite visible_zero).
    eexists. simpl. split; [reflexivity|]. split; [apply max_ge_left|]. split.
    + intros H. destruct (max_min_in_range fitAll 500
                            (W / ((e - s) / (1 # 2))) H) as (E & _ & Hhi).
      by split.
    + apply max_min_low_wins.
Qed.

(** C4, as the code has it.  [zoomToSegment] hands the chunk-local
    bounds of the segment, [getDuration()] and the container width to a
    pure computation, [zoomCalc], and asks the waveform for the numbers
    it returns.  Write [px = W / ((e - s) / 0.5)], which is [Infinity]
    for a segment of length zero, and [fitAll = W / T].

    - In a chunk of positive duration, unless the width and the length
      of the segment are both zero: the zoom is [px] clamped to
      [[fitAll, 500]] when [fitAll <= 500], and it is [fitAll] when
      [fitAll] exceeds 500 (the lower bound is applied last); the
      scroll offset is [midpointPixel - W / 2] clamped to
      [[0, zoom * T - W]]; the seek ratio is [s / T].
    - A segment of length zero gets the larger of [fitAll] and 500.
    - The segment [[10, 12]] in a chunk of 100 s shown in 1000 px gets
      zoom 250 and scroll offset 2250; the segment [[5, 5]] there gets
      zoom 500, scroll offset 2000 and seek ratio 0.05.
    - With a duration of zero the zoom asked for is [Infinity] and the
      scroll offset [NaN]; with width and length both zero the zoom
      is [NaN]. *)
Theorem zoom_and_scroll_of_segment :
  (∀ s e T W : Q,
     (0 < T)%Q → ¬ ((W == 0)%Q ∧ (e - s == 0)%Q) →
     let px := jsDiv W ((e - s) / (1 # 2)) in
     let fitAll := (W / T)%Q in
     ∃ zoom scroll : Q,
       zoomCalc s e T W = mkView (Num zoom) (Num scroll) (Num (s / T))
       ∧ ((fitAll <= 500)%Q →
          sameNumber (Num zoom) (clampNum fitAll 500 px)
          ∧ (fitAll <= zoom <= 500)%Q)
       ∧ ((500 < fitAll)%Q → (zoom == fitAll)%Q)
       ∧ (let midpointPixel := ((s + e) / 2 / T * (zoom * T))%Q in
          (midpointPixel == (s + e) / 2 * zoom)%Q
          ∧ (scroll == clampTo 0 (zoom * T - W) (midpointPixel - W / 2))%Q
          ∧ (0 <= scroll <= zoom * T - W)%Q))
  ∧ (∀ s T W : Q,
       (0 < T)%Q → (0 < W)%Q →
       ∃ zoom : Q,
         view_zoom (zoomCalc s s T W) = Num zoom
         ∧ (zoom == Qmax (W / T) 500)%Q)
  ∧ (∃ zoom scroll : Q,
       zoomCalc 10 12 100 1000 = mkView (Num zoom) (Num scroll) (Num (10 / 100))
       ∧ (zoom == 250)%Q ∧ (scroll == 2250)%Q)
  ∧ (∃ zoom scroll seek : Q,
       zoomCalc 5 5 100 1000 = mkView (Num zoom) (Num scroll) (Num seek)
       ∧ (zoom == 500)%Q ∧ (scroll == 2000)%Q ∧ (seek == 5 # 100)%Q)
  ∧ (∀ (D : Type) (st : State D) (segmentId : Z) (segment : Segment)
       (chunk : Chunk),
       find (λ s, strictEq (segment_id s) (IdNum segmentId)) (segments st)
         = Some segment →
       currentChunk st = Some chunk →
       ws_view (zoomToSegment segmentId st)
       = Some (zoomCalc (start_sec segment - start_time chunk)
                 (end_sec segment - start_time chunk)
                 (ws_duration st) (waveform_clientWidth st)))
  ∧ (∀ s e W : Q,
       (0 < W)%Q →
       view_zoom (zoomCalc s e 0 W) = Infinity
       ∧ view_scroll (zoomCalc s e 0 W) = NaN)
  ∧ (∀ s T : Q, view_zoom (zoomCalc s s T 0) = NaN).
Proof.
  split; [|split; [|split; [|split; [|split; [|split]]]]].
  - intros s e T W HT Hnan px fitAll.
    destruct (clamped_zoom s e T W HT Hnan) as (zoom & Hzoom & Hlo & Hin & Hout).
    unfold zoomCalc. rewrite Hzoom, !(jsDiv_nonzero _ T) by lra.
    unfold centerOnTime. cbn [jsMul jsSub jsMax jsMin].
    do 2 eexists. split; [reflexivity|].
    split; [intros H; destruct (Hin H); by repeat split|]. split; [done|].
    assert (0 <= zoom * T - W)%Q as Hwide by (by apply fit_all_width).
    split; [field; lra|]. by apply scroll_in_range.
  - intros s T W HT HW.
    destruct (clamped_zoom s s T W HT) as (zoom & Hzoom & _ & Hin & Hout).
    { intros [H _]. lra. }
    exists zoom. split; [exact Hzoom|].
    rewrite jsDiv_zero in Hin by (apply visible_zero; lra).
    assert ((W ?= 0)%Q = Gt) as HWc by (by apply Qgt_alt).
    rewrite HWc in Hin. cbn [clampNum sameNumber] in Hin.
    destruct (Qlt_le_dec 500 (W / T)) as [H|H].
    + rewrite (Hout H). minmax_cases; lra.
    + destruct (Hin H) as (E & _). rewrite E. minmax_cases; lra.
  - do 2 eexists. split; [reflexivity|]. by vm_compute.
  - do 3 eexists. split; [reflexivity|]. by vm_compute.
  - intros D st segmentId segment chunk Hseg Hchunk.
    unfold zoomToSegment. by rewrite Hseg, Hchunk.
  - intros s e W HW. unfold zoomCalc.
    rewrite (jsDiv_zero W 0) by reflexivity.
    assert ((W ?= 0)%Q = Gt) as HWc by (by apply Qgt_alt). rewrite HWc.
    assert (∀ x, x ≠ NaN → jsMax Infinity (jsMin (Num 500) x) = Infinity) as Hmax.
    { by intros [| | |]. }
    rewrite Hmax.
    { split; [done|]. cbn [view_scroll]. unfold centerOnTime.
      change (jsMul Infinity (Num 0)) with NaN.
      by destruct (jsDiv ((s + e) / 2) 0). }
    unfold jsDiv. rewrite HWc. by destruct (Qeq_bool _ 0).
  - intros s T. unfold zoomCalc.
    rewrite (jsDiv_zero 0 ((s - s) / (1 # 2))) by (apply visible_zero; lra).
    change (0 ?= 0)%Q with Eq. cbn [jsMin view_zoom].
    by destruct (jsDiv 0 T).
Qed.

Lemma zoom_and_scroll_of_segment_witness :
  ∃ zoom scroll : Q,
    zoomCalc 10 12 100 1000 = mkView (Num zoom) (Num scroll) (Num (10 / 100))
    ∧ (1000 / 100 <= zoom <= 500)%Q
    ∧ (0 <= scroll <= zoom * 100 - 1000)%Q.
Proof.
  destruct (proj1 zoom_and_scroll_of_segment 10 12 100 1000)%Q
    as (zoom & scroll & Hv & Hzoom & _ & _ & _ & Hscroll).
  - by vm_compute.
  - intros [H _]. by vm_compute in H.
  - exists zoom, scroll. split; [exact Hv|]. split; [|exact Hscroll].
    refine (proj2 (Hzoom _)). by vm_compute.
Defined.

(** The claim as worded fails on a short chunk: for a segment [[0, 1]]
    in a chunk of 1 s shown in 1000 px the zoom is 1000, above the
    maximum of 500, because fitting the whole chunk already needs
    1000 px per second. *)
Lemma zoom_above_maximum_on_short_chunk :
  ∃ zoom : Q,
    view_zoom (zoomCalc 0 1 1 1000) = Num zoom
    ∧ (zoom == 1000)%Q
    ∧ ¬ (zoom <= 500)%Q.
Proof.
  eexists. split; [reflexivity|]. split; [by vm_compute|].
  vm_compute. intros H. by apply H.
Qed.

(** ** Table time edits *)

(** C5 (what the code does).  Committing a table time edit whose text
    differs from the displayed time leaves [start_sec] and [end_sec] of
    the segment as they were: the parsed value is stored under the
    property [start_time] (or [end_time]) of the segment object, and the
    body of the [PUT] has the keys [start_time] / [end_time] only, never
    [start_sec] / [end_sec]. *)
Theorem time_edit_bypasses_start_sec
    (net : list Request -> Request -> bool) (parseFloat : string -> JsNumber)
    (st : State Z) (i : nat) (isStart : bool) (newTime : string)
    (segment : Segment) :
  segments st !! i = Some segment →
  newTime ≠ toFixed2 (if isStart then start_sec segment else end_sec segment) →
  let st1 := SoftDelete.finishTimeEdit net parseFloat i isStart newTime true st in
  ∃ segment' body,
    segments st1 !! i = Some segment'
    ∧ start_sec segment' = start_sec segment
    ∧ end_sec segment' = end_sec segment
    ∧ (if isStart then seg_start_time segment' else seg_end_time segment')
      = Some (parseFloat newTime)
    ∧ requests st1 = requests st ++ [PUT (parseInt (segment_id segment)) body]
    ∧ u_start_sec body = None ∧ u_end_sec body = None ∧ u_text body = None
    ∧ u_start_time body = seg_start_time segment'
    ∧ u_end_time body = seg_end_time segment'.
Proof.
  intros Hseg Hne st1. subst st1. unfold SoftDelete.finishTimeEdit.
  rewrite Hseg. simpl.
  destruct (String.eqb newTime _) eqn:Heq.
  { apply String.eqb_eq in Heq. done. }
  simpl.
  match goal with
  | |- context [saveSegmentUpdate net ?id ?u ?s] =>
      destruct (saveSegmentUpdate_store net id u s) as (E1 & _ & _ & _ & _ & E6)
  end.
  simpl in E1, E6. apply lookup_lt_Some in Hseg.
  destruct isStart; do 2 eexists; rewrite E1, E6;
    (split; [by apply list_lookup_insert_eq|done]).
Qed.

Lemma time_edit_bypasses_start_sec_witness :
  let st1 :=
    SoftDelete.finishTimeEdit alwaysOk parseDecimal 1 true "1.75" true
      (sampleState None [] []) in
  ∃ segment' body,
    segments st1 !! 1%nat = Some segment'
    ∧ start_sec segment' = (3 # 2)%Q
    ∧ seg_start_time segment' = Some (Finite (7 # 4))
    ∧ requests st1 = [PUT 42 body]
    ∧ u_start_sec body = None ∧ u_end_sec body = None
    ∧ u_start_time body = Some (Finite (7 # 4)) ∧ u_end_time body = None.
Proof.
  destruct (time_edit_bypasses_start_sec alwaysOk parseDecimal
              (sampleState None [] []) 1 true "1.75"
              (sampleSegment 42 (3 # 2) 2 "two"))
    as (segment' & body & H1 & H2 & _ & H4 & H5 & H6 & H7 & _ & H9 & H10).
  - reflexivity.
  - discriminate.
  - exists segment', body.
    vm_compute in H1. injection H1 as <-.
    repeat split; done.
Defined.

(** ** Saving pending deletions *)

Lemma set_requests_same {D : Type} (st : State D) :
  set_requests (requests st) st = st.
Proof. by destruct st. Qed.

Lemma deleteEach_all {D : Type} net (ids : list Z) (st : State D) :
  (∀ k, resolves net (requests st) ids k) →
  deleteEach net ids st
  = (set_requests (requests st ++ (DELETE <$> ids)) st, true).
Proof.
  revert st. induction ids as [|id ids IH]; intros st H; simpl.
  - by rewrite app_nil_r, set_requests_same.
  - pose proof (H 0%nat id eq_refl) as H0. simpl in H0.
    rewrite app_nil_r in H0. rewrite H0.
    rewrite IH.
    + unfold set_requests. simpl. by rewrite <- app_assoc.
    + intros k x Hx. simpl. rewrite <- app_assoc. by apply (H (S k)).
Qed.

Lemma deleteEach_first_failure {D : Type} net (ids : list Z) (st : State D)
    (j : nat) (id : Z) :
  ids !! j = Some id →
  (∀ k, (k < j)%nat → resolves net (requests st) ids k) →
  net (requests st ++ (DELETE <$> take j ids)) (DELETE id) = false →
  deleteEach net ids st
  = (set_requests (requests st ++ (DELETE <$> take (S j) ids)) st, false).
Proof.
  revert st j. induction ids as [|x ids IH]; intros st j Hj Hbefore Hfail;
    [done|].
  destruct j as [|j]; simpl in *.
  - injection Hj as ->. rewrite app_nil_r in Hfail. by rewrite Hfail.
  - pose proof (Hbefore 0%nat ltac:(lia) x eq_refl) as H0. simpl in H0.
    rewrite app_nil_r in H0. rewrite H0.
    rewrite (IH _ j Hj).
    + unfold set_requests. simpl. by rewrite <- app_assoc.
    + intros k Hk y Hy. simpl. rewrite <- app_assoc.
      apply (Hbefore (S k)); [lia|done].
    + simpl. by rewrite <- app_assoc.
Qed.

Lemma notDelete_after_filter {D : Type} (l : list (UndoEntry D)) (d : D) :
  DeleteEntry d ∉ filter (λ e, notDelete e = true) l.
Proof. intros H. by apply list_elem_of_filter in H as [H _]. Qed.

Lemma saveAll_empty {D : Type} net (st : State D) :
  deletedSegments st = [] →
  saveAll net st
  = set_hasUnsavedChanges false (setStatus "All changes saved" "saved" st).
Proof. intros H. unfold saveAll. by rewrite H. Qed.

Lemma saveAll_resolved {D : Type} net (st : State D) :
  deletedSegments st ≠ [] →
  (∀ k, resolves net (requests st) (deletedSegments st) k) →
  let st' := saveAll net st in
  requests st' = requests st ++ (DELETE <$> deletedSegments st)
  ∧ deletedSegments st' = []
  ∧ undoStack st' = filter (λ e, notDelete e = true) (undoStack st)
  ∧ undoBtn_disabled (ui st') = bool_decide (length (undoStack st') = 0%nat)
  ∧ hasUnsavedChanges st' = false.
Proof.
  intros Hne Hall st'. subst st'. unfold saveAll.
  rewrite bool_decide_eq_false_2
    by (destruct (deletedSegments st); [done|simpl; lia]).
  simpl deletedSegments. by rewrite deleteEach_all.
Qed.

Lemma saveAll_rejected {D : Type} net (st : State D) (j : nat) (id : Z) :
  deletedSegments st !! j = Some id →
  (∀ k, (k < j)%nat → resolves net (requests st) (deletedSegments st) k) →
  net (requests st ++ (DELETE <$> take j (deletedSegments st))) (DELETE id)
    = false →
  saveAll net st
  = setStatus "Save failed" "error"
      (set_requests
         (requests st ++ (DELETE <$> take (S j) (deletedSegments st)))
         (setStatus "Saving deletions..." "saving" st)).
Proof.
  intros Hj Hbefore Hfail. unfold saveAll.
  rewrite bool_decide_eq_false_2
    by (destruct (deletedSegments st); [done|simpl; lia]).
  simpl deletedSegments.
  by rewrite (deleteEach_first_failure net _ _ j id).
Qed.

(** C6. [saveAll()] with pending deletions issues the [DELETE] calls one
    after the other in the order of [state.deletedSegments].  When all
    of them resolve, every id has been sent, the pending list is
    emptied, the delete entries are gone from the undo stack (the undo
    button follows the remaining stack) and the unsaved flag is cleared.
    When call [j] is the first to fail, the calls after it are not
    issued, and the pending list, the unsaved flag and the undo stack
    keep their values. *)
Theorem saveAll_deletes_in_sequence {D : Type}
    (net : list Request -> Request -> bool) (st : State D) :
  deletedSegments st ≠ [] →
  let ids := deletedSegments st in
  let st' := saveAll net st in
  ((∀ k, resolves net (requests st) ids k) →
   requests st' = requests st ++ (DELETE <$> ids)
   ∧ deletedSegments st' = []
   ∧ undoStack st' = filter (λ e, notDelete e = true) (undoStack st)
   ∧ (∀ d, DeleteEntry d ∉ undoStack st')
   ∧ undoBtn_disabled (ui st') = bool_decide (length (undoStack st') = 0%nat)
   ∧ hasUnsavedChanges st' = false)
  ∧ (∀ (j : nat) (id : Z),
       ids !! j = Some id →
       (∀ k, (k < j)%nat → resolves net (requests st) ids k) →
       net (requests st ++ (DELETE <$> take j ids)) (DELETE id) = false →
       requests st' = requests st ++ (DELETE <$> take (S j) ids)
       ∧ deletedSegments st' = ids
       ∧ hasUnsavedChanges st' = hasUnsavedChanges st
       ∧ undoStack st' = undoStack st
       ∧ status (ui st') = ("Save failed", "error")).
Proof.
  intros Hne ids st'. subst ids st'. split.
  - intros Hall.
    destruct (saveAll_resolved net st Hne Hall) as (H1 & H2 & H3 & H4 & H5).
    repeat split; try done.
    intros d. rewrite H3. apply notDelete_after_filter.
  - intros j id Hj Hbefore Hfail.
    by rewrite (saveAll_rejected net st j id Hj Hbefore Hfail).
Qed.

(** C7. [saveAll()] with nothing pending sends no request: it sets the
    status to "All changes saved" and clears the unsaved flag, and that
    is all it changes. *)
Theorem saveAll_nothing_pending {D : Type}
    (net : list Request -> Request -> bool) (st : State D) :
  deletedSegments st = [] →
  saveAll net st
  = set_hasUnsavedChanges false (setStatus "All changes saved" "saved" st)
  ∧ requests (saveAll net st) = requests st
  ∧ status (ui (saveAll net st)) = ("All changes saved", "saved")
  ∧ hasUnsavedChanges (saveAll net st) = false
  ∧ segments (saveAll net st) = segments st
  ∧ undoStack (saveAll net st) = undoStack st
  ∧ deletedSegments (saveAll net st) = []
  ∧ selectedSegmentId (saveAll net st) = selectedSegmentId st.
Proof.
  intros H. rewrite (saveAll_empty net st H). by simpl.
Qed.

Lemma saveAll_deletes_in_sequence_witness :
  let st : State Z :=
    sampleState None
      [DeleteEntry 41%Z; EditEntry (EditText (IdNum 43) "trois");
       DeleteEntry 42%Z]
      [41%Z; 42%Z] in
  (requests (saveAll alwaysOk st) = [DELETE 41; DELETE 42]
   ∧ deletedSegments (saveAll alwaysOk st) = []
   ∧ undoStack (saveAll alwaysOk st)
     = [EditEntry (EditText (IdNum 43) "trois")])
  ∧ (requests (saveAll (rejectsDelete 41) st) = [DELETE 41]
     ∧ deletedSegments (saveAll (rejectsDelete 41) st) = [41%Z; 42%Z]
     ∧ hasUnsavedChanges (saveAll (rejectsDelete 41) st) = false).
Proof.
  intros st. split.
  - destruct (proj1 (saveAll_deletes_in_sequence alwaysOk st
                       ltac:(discriminate)))
      as (H1 & H2 & H3 & _); [intros k id _; reflexivity|].
    split; [exact H1|]. split; [exact H2|exact H3].
  - destruct (proj2 (saveAll_deletes_in_sequence (rejectsDelete 41) st
                       ltac:(discriminate)) 0%nat 41%Z)
      as (H1 & H2 & H3 & _); [reflexivity|intros k Hk; lia|reflexivity|].
    split; [exact H1|]. split; [exact H2|exact H3].
Defined.

Lemma saveAll_nothing_pending_witness :
  requests (saveAll (rejectsDelete 41)
              (sampleState (D := Z) (Some 42%Z) [] [])) = []
  ∧ status (ui (saveAll (rejectsDelete 41)
                  (sampleState (D := Z) (Some 42%Z) [] [])))
    = ("All changes saved", "saved").
Proof.
  destruct (saveAll_nothing_pending (rejectsDelete 41)
              (sampleState (D := Z) (Some 42%Z) [] []) eq_refl)
    as (_ & H2 & H3 & _).
  split; [exact H2|exact H3].
Defined.

(** ** Selection *)

Lemma strictEq_IdNum_other (x : JsId) (n : Z) :
  x ≠ IdNum n → strictEq x (IdNum n) = false.
Proof.
  destruct x as [m|m]; simpl; [|done].
  intros H. apply Z.eqb_neq. congruence.
Qed.

Lemma find_strict_absent (l : list Segment) (n : Z) :
  (∀ s, s ∈ l → segment_id s ≠ IdNum n) →
  find (λ s, strictEq (segment_id s) (IdNum n)) l = None.
Proof.
  intros H. unfold find. rewrite findIndex_absent; [done|].
  intros s Hs. by apply strictEq_IdNum_other, H.
Qed.

Lemma find_loose_first (l : list Segment) (n : Z) (i : nat) (segment : Segment) :
  firstWithValue n l i segment →
  find (λ s, looseEq (segment_id s) (IdNum n)) l = Some segment.
Proof.
  intros (Hseg & Hid & Hbefore).
  apply (find_findIndex _ _ i); [|done].
  apply (findIndex_first _ _ _ segment Hseg).
  - unfold looseEq. simpl. by apply Z.eqb_eq.
  - intros j y Hj Hy. unfold looseEq. simpl. apply Z.eqb_neq.
    by apply (Hbefore j).
Qed.

Lemma find_strict_first (l : list Segment) (n : Z) (i : nat) (segment : Segment) :
  firstWithNumber n l i segment →
  find (λ s, strictEq (segment_id s) (IdNum n)) l = Some segment.
Proof.
  intros (Hseg & Hid & Hbefore).
  apply (find_findIndex _ _ i); [|done].
  apply (findIndex_first _ _ _ segment Hseg).
  - rewrite Hid. simpl. apply Z.eqb_refl.
  - intros j y Hj Hy. by apply strictEq_IdNum_other, (Hbefore j).
Qed.

Lemma firstWithValue_number (l : list Segment) (n : Z) (i : nat)
    (segment : Segment) :
  firstWithValue n l i segment → segment_id segment = IdNum n →
  firstWithNumber n l i segment.
Proof.
  intros (Hseg & _ & Hbefore) Hid. split; [done|]. split; [done|].
  intros j y Hj Hy Hy'. apply (Hbefore j y Hj Hy). by rewrite Hy'.
Qed.

(** C8 (what the code does).  [selectSegment] first turns a string
    argument into the number it spells, so [selectSegment("42")] and
    [selectSegment(42)] end in the same state, in both builds.  Which
    segment that state shows depends on the build.

    - [src/frontend/app.js] looks the segment up with [==]: the first
      segment of the array whose id has the numeric value [n] is
      located, whether its [segment_id] is stored as a number or as a
      string; the delete button and the read-out are its.  The zoom
      inside [selectSegment] compares with [===]: the view moves when
      the id is stored as a number, and stays when no segment stores
      the number [n].
    - [src/unnamed/part_000] looks the segment up with [===] against
      the number: the first segment whose [segment_id] is the number
      [n] is located.  When no segment stores the number [n], and be
      it that one stores the string that spells [n], nothing is
      located: the delete button is disabled and the read-out and the
      view stay. *)
Theorem selectSegment_same_for_string_and_number (n : Z) :
  (∀ st : State Z,
     SoftDelete.selectSegment (IdStr n) st = SoftDelete.selectSegment (IdNum n) st)
  ∧ (∀ st : State (Segment * nat),
       HardDelete.selectSegment (IdStr n) st
       = HardDelete.selectSegment (IdNum n) st)
  ∧ (∀ (st : State Z) (i : nat) (segment : Segment) (x : JsId),
       firstWithValue n (segments st) i segment →
       x = IdStr n ∨ x = IdNum n →
       let st' := SoftDelete.selectSegment x st in
       selectedSegmentId st' = Some n
       ∧ deleteBtn_disabled (ui st') = markedForDeletion segment
       ∧ selectedInfo (ui st')
         = selectedText n segment
             (if markedForDeletion segment then " (marked for deletion)"
              else "")
       ∧ (segment_id segment = IdNum n →
          ∀ chunk, currentChunk st = Some chunk →
            ws_view st'
            = Some (zoomCalc (start_sec segment - start_time chunk)
                      (end_sec segment - start_time chunk)
                      (ws_duration st) (waveform_clientWidth st)))
       ∧ ((∀ s, s ∈ segments st → segment_id s ≠ IdNum n) →
          ws_view st' = ws_view st))
  ∧ (∀ (st : State (Segment * nat)) (i : nat) (segment : Segment) (x : JsId),
       firstWithNumber n (segments st) i segment →
       x = IdStr n ∨ x = IdNum n →
       let st' := HardDelete.selectSegment x st in
       selectedSegmentId st' = Some n
       ∧ deleteBtn_disabled (ui st') = false
       ∧ selectedInfo (ui st') = selectedText n segment ""
       ∧ (∀ chunk, currentChunk st = Some chunk →
            ws_view st'
            = Some (zoomCalc (start_sec segment - start_time chunk)
                      (end_sec segment - start_time chunk)
                      (ws_duration st) (waveform_clientWidth st))))
  ∧ (∀ (st : State (Segment * nat)) (x : JsId),
       (∀ s, s ∈ segments st → segment_id s ≠ IdNum n) →
       x = IdStr n ∨ x = IdNum n →
       let st' := HardDelete.selectSegment x st in
       selectedSegmentId st' = Some n
       ∧ deleteBtn_disabled (ui st') = true
       ∧ selectedInfo (ui st') = selectedInfo (ui st)
       ∧ ws_view st' = ws_view st).
Proof.
  split; [done|]. split; [done|]. split; [|split].
  - intros st i segment x Hfirst Hx st'.
    assert (normalizeId x = n) as Hn by (by destruct Hx as [-> | ->]).
    pose proof (find_loose_first _ _ _ _ Hfirst) as Hloose.
    subst st'. unfold SoftDelete.selectSegment. rewrite Hn.
    cbn [segments set_selectedSegmentId]. rewrite Hloose.
    split; [|split; [|split; [|split]]].
    + match goal with
      | |- context [zoomToSegment ?k ?s] =>
          by destruct (zoomToSegment_store k s) as (_ & _ & _ & _ & -> & _)
      end.
    + match goal with
      | |- context [zoomToSegment ?k ?s] =>
          by destruct (zoomToSegment_store k s) as (_ & _ & _ & _ & _ & _ & ->)
      end.
    + match goal with
      | |- context [zoomToSegment ?k ?s] =>
          by destruct (zoomToSegment_store k s) as (_ & _ & _ & _ & _ & _ & ->)
      end.
    + intros Hid chunk Hchunk.
      pose proof (find_strict_first _ _ _ _
                    (firstWithValue_number _ _ _ _ Hfirst Hid)) as Hstrict.
      unfold zoomToSegment.
      cbn [segments currentChunk set_ui set_selectedSegmentId].
      rewrite Hstrict, Hchunk. reflexivity.
    + intros Hnone. unfold zoomToSegment.
      cbn [segments set_ui set_selectedSegmentId].
      rewrite (find_strict_absent _ _ Hnone). reflexivity.
  - intros st i segment x Hfirst Hx st'.
    assert (normalizeId x = n) as Hn by (by destruct Hx as [-> | ->]).
    pose proof (find_strict_first _ _ _ _ Hfirst) as Hstrict.
    subst st'. unfold HardDelete.selectSegment. rewrite Hn.
    match goal with
    | |- context [zoomToSegment ?k ?s] =>
        destruct (zoomToSegment_store k s) as (E1 & _ & _ & _ & E5 & _ & E7)
    end.
    cbn [segments set_selectedSegmentId] in E1. rewrite E1, Hstrict.
    cbn [selectedSegmentId ui set_ui deleteBtn_disabled set_deleteBtn
         selectedInfo set_selectedInfo ws_view].
    split; [by rewrite E5|]. split; [done|]. split; [done|].
    intros chunk Hchunk. unfold zoomToSegment.
    cbn [segments currentChunk set_selectedSegmentId].
    rewrite Hstrict, Hchunk. reflexivity.
  - intros st x Hnone Hx st'.
    assert (normalizeId x = n) as Hn by (by destruct Hx as [-> | ->]).
    subst st'. unfold HardDelete.selectSegment, zoomToSegment. rewrite Hn.
    cbn [segments set_selectedSegmentId].
    rewrite (find_strict_absent _ _ Hnone). cbn [segments set_selectedSegmentId].
    rewrite (find_strict_absent _ _ Hnone). by repeat split.
Qed.

Lemma selectSegment_same_for_string_and_number_witness :
  deleteBtn_disabled
    (ui (SoftDelete.selectSegment (IdNum 42) stringIdState)) = false
  ∧ deleteBtn_disabled
      (ui (HardDelete.selectSegment (IdStr 42) (sampleState None [] [])))
    = false
  ∧ deleteBtn_disabled
      (ui (HardDelete.selectSegment (IdNum 42) stringIdState)) = true.
Proof.
  split; [|split].
  - refine (proj1 (proj2 (proj1 (proj2 (proj2
              (selectSegment_same_for_string_and_number 42)))
              stringIdState 0%nat stringIdSegment (IdNum 42) _ _))).
    + split; [reflexivity|]. split; [reflexivity|]. intros j y Hj. lia.
    + by right.
  - refine (proj1 (proj2 (proj1 (proj2 (proj2 (proj2
              (selectSegment_same_for_string_and_number 42))))
              (sampleState None [] []) 1%nat
              (sampleSegment 42 (3 # 2) 2 "two") (IdStr 42) _ _))).
    + split; [reflexivity|]. split; [reflexivity|].
      intros j y Hj Hy. destruct j as [|j]; [|lia].
      injection Hy as <-. discriminate.
    + by left.
  - refine (proj1 (proj2 (proj2 (proj2 (proj2 (proj2
              (selectSegment_same_for_string_and_number 42))))
              stringIdState (IdNum 42) _ _))).
    + intros s Hs. simpl in Hs.
      apply elem_of_cons in Hs as [-> | Hs]; [discriminate|].
      by apply elem_of_nil in Hs.
    + by right.
Defined.

(** The claim as worded fails in [src/unnamed/part_000]: the array
    holds the segment whose id is the string ["42"], of numeric value
    42, and neither [selectSegment(42)] nor [selectSegment("42")]
    locates it; the delete button is disabled and the read-out is
    left empty.  On the same array [src/frontend/app.js] locates the
    segment. *)
Lemma hard_select_misses_string_stored_id :
  stringIdSegment ∈ segments (stringIdState (D := Segment * nat))
  ∧ parseInt (segment_id stringIdSegment) = 42%Z
  ∧ deleteBtn_disabled
      (ui (HardDelete.selectSegment (IdNum 42) stringIdState)) = true
  ∧ selectedInfo (ui (HardDelete.selectSegment (IdStr 42) stringIdState)) = ""
  ∧ deleteBtn_disabled
      (ui (SoftDelete.selectSegment (IdNum 42) stringIdState)) = false
  ∧ selectedInfo (ui (SoftDelete.selectSegment (IdNum 42) stringIdState))
    = "Selected: Segment 42 | Duration: 0.50s".
Proof.
  split; [apply list_elem_of_here|]. by vm_compute.
Qed.

(** ** Undo of an edit whose segment is gone *)

(** C9. When [undo()] pops an edit entry whose [segmentId] matches no
    segment of the array, the entry is dropped: the function returns
    without an exception, the segments are untouched, no request is
    sent, and the undo button is disabled exactly when the remaining
    stack is empty.  This holds in both builds. *)
Theorem undo_of_missing_segment_discards_entry
    (b : Build) (net : list Request -> Request -> bool)
    (st : State (payload b)) (rest : list (UndoEntry (payload b)))
    (lastChange : Edit) :
  undoStack st = rest ++ [EditEntry lastChange] →
  (∀ s, s ∈ segments st →
        strictEq (segment_id s) (edit_segmentId lastChange) = false) →
  let st' := undo_of b net st in
  st' = refreshUndoBtn (set_undoStack rest st)
  ∧ undoStack st' = rest
  ∧ segments st' = segments st
  ∧ requests st' = requests st
  ∧ deletedSegments st' = deletedSegments st
  ∧ (undoBtn_disabled (ui st') = true ↔ rest = []).
Proof.
  intros Hstack Habsent st'. subst st'.
  rewrite (undo_of_edit b net st rest lastChange Hstack).
  rewrite undoEdit_missing by (by apply findIndex_absent).
  repeat split; try done; simpl.
  - intros H. apply bool_decide_eq_true in H. by destruct rest.
  - intros ->. done.
Qed.

Lemma undo_of_missing_segment_discards_entry_witness :
  let st : State (payload Hard) :=
    sampleState (Some 42%Z) [EditEntry (EditTimes 77 0 1)] [] in
  segments (undo_of Hard (rejectsDelete 41) st) = sampleSegments
  ∧ requests (undo_of Hard (rejectsDelete 41) st) = []
  ∧ undoStack (undo_of Hard (rejectsDelete 41) st) = [].
Proof.
  intros st.
  destruct (undo_of_missing_segment_discards_entry Hard (rejectsDelete 41) st
              [] (EditTimes 77 0 1) eq_refl)
    as (_ & H2 & H3 & H4 & _).
  - intros s Hs. simpl in Hs. unfold sampleSegments in Hs.
    repeat (apply elem_of_cons in Hs as [-> | Hs]; [reflexivity|]).
    by apply elem_of_nil in Hs.
  - split; [exact H3|]. split; [exact H4|exact H2].
Defined.

(** ** Saving versus finalizing in the soft-delete build *)

Lemma saveAll_segments {D : Type} net (st : State D) :
  segments (saveAll net st) = segments st.
Proof.
  unfold saveAll. case_bool_decide; [done|].
  pose proof (deleteEach_store net
                (deletedSegments (setStatus "Saving deletions..." "saving" st))
                (setStatus "Saving deletions..." "saving" st)) as (E & _).
  destruct (deleteEach net _ _) as [st1 ok]. simpl in E.
  by destruct ok.
Qed.

Lemma filter_unmarked_all (l : list Segment) :
  length (filter (λ s, markedForDeletion s = true) l) = 0%nat →
  filter (λ s, markedForDeletion s = false) l = l.
Proof.
  induction l as [|x l IH]; [done|].
  rewrite !filter_cons. destruct (markedForDeletion x) eqn:Hx.
  - rewrite decide_True by done. done.
  - rewrite decide_False by done. rewrite decide_True by done.
    intros H. by rewrite IH.
Qed.

(** C10. In the soft-delete build [saveAll()] never touches
    [state.segments], whatever the server answers.  After a [saveAll()]
    whose calls all resolve, the ids have been sent for deletion and the
    pending list is empty, yet every segment that was marked is still in
    the array, still marked.  Removing the marked segments is what
    [finalizeDeletes()] does: when its calls resolve it keeps exactly
    the unmarked segments, in order. *)
Theorem soft_saveAll_keeps_marked_segments
    (net : list Request -> Request -> bool) (st : State Z) :
  segments (saveAll net st) = segments st
  ∧ ((∀ k, resolves net (requests st) (deletedSegments st) k) →
     requests (saveAll net st)
     = requests st ++ (DELETE <$> deletedSegments st)
     ∧ deletedSegments (saveAll net st) = []
     ∧ ∀ s, s ∈ segments st → markedForDeletion s = true →
            s ∈ segments (saveAll net st))
  ∧ ((∀ log r, net log r = true) →
     segments (SoftDelete.finalizeDeletes net st)
     = filter (λ s, markedForDeletion s = false) (segments st)).
Proof.
  split; [apply saveAll_segments|]. split.
  - intros Hall. rewrite saveAll_segments.
    destruct (deletedSegments st) as [|id ids] eqn:Hids.
    + rewrite (saveAll_empty net st Hids). simpl.
      by rewrite Hids, app_nil_r.
    + assert (deletedSegments st ≠ []) as Hne by (by rewrite Hids).
      destruct (saveAll_resolved net st Hne) as (-> & -> & _);
        [by rewrite Hids|].
      by rewrite Hids.
  - intros Hok. unfold SoftDelete.finalizeDeletes. case_bool_decide as Hnone.
    + simpl. by rewrite filter_unmarked_all.
    + rewrite deleteEach_all; [done|].
      intros k id _. apply Hok.
Qed.

Lemma soft_saveAll_keeps_marked_segments_witness :
  let st : State Z :=
    set_segments (alter (set_marked true) 1 sampleSegments)
      (sampleState None [DeleteEntry 42%Z] [42%Z]) in
  requests (saveAll alwaysOk st) = [DELETE 42]
  ∧ deletedSegments (saveAll alwaysOk st) = []
  ∧ set_marked true (sampleSegment 42 (3 # 2) 2 "two")
    ∈ segments (saveAll alwaysOk st)
  ∧ segments (SoftDelete.finalizeDeletes alwaysOk st)
    = [sampleSegment 41 0 1 "one"; sampleSegment 43 5 6 "three"].
Proof.
  intros st.
  pose proof (soft_saveAll_keeps_marked_segments alwaysOk st)
    as (_ & Hsave & Hfinal).
  destruct Hsave as (H1 & H2 & H3); [intros k id _; reflexivity|].
  split; [exact H1|]. split; [exact H2|]. split.
  - apply H3; [|reflexivity].
    apply list_elem_of_further, list_elem_of_here.
  - rewrite Hfinal; [reflexivity|]. intros log r. reflexivity.
Defined.

(** * Further properties *)

(** ** Saving edits *)

Lemma saveSegmentUpdate_status {D : Type} net id u (st : State D) :
  status (ui (saveSegmentUpdate net id u st))
  = if net (requests st) (PUT id u) then ("Saved", "saved")
    else ("Save failed", "error").
Proof.
  unfold saveSegmentUpdate, fetch; simpl.
  by destruct (net (requests st) (PUT id u)).
Qed.

(** X1. A region update whose [PUT] is rejected is kept locally: the
    segment has the new times, the undo entry is pushed and the status
    reads "Save failed".  With nothing pending for deletion, the
    [saveAll()] that follows sends nothing, reports "All changes saved"
    and clears the unsaved flag, although the only request ever sent
    for the edit is the rejected one. *)
Theorem rejected_region_update_is_kept_and_reported_saved {D : Type}
    (net : list Request -> Request -> bool) (st : State D)
    (region : Region) (i : nat) (segment : Segment) (chunk : Chunk) :
  let segmentId := parseInt (region_id region) in
  let newStart := (region_start region + start_time chunk)%Q in
  let newEnd := (region_end region + start_time chunk)%Q in
  let put :=
    PUT segmentId (mkUpdates (Some newStart) (Some newEnd) None None None) in
  findIndex (λ s, strictEq (segment_id s) (IdNum segmentId)) (segments st)
    = Some i →
  segments st !! i = Some segment →
  currentChunk st = Some chunk →
  net (requests st) put = false →
  deletedSegments st = [] →
  ∃ st1,
    handleRegionUpdate net region st = Some st1
    ∧ segments st1 !! i = Some (set_times newStart newEnd segment)
    ∧ undoStack st1
      = undoStack st
        ++ [EditEntry (EditTimes segmentId (start_sec segment)
                         (end_sec segment))]
    ∧ undoBtn_disabled (ui st1) = false
    ∧ status (ui st1) = ("Save failed", "error")
    ∧ hasUnsavedChanges st1 = true
    ∧ requests st1 = requests st ++ [put]
    ∧ segments (saveAll net st1) = segments st1
    ∧ undoStack (saveAll net st1) = undoStack st1
    ∧ requests (saveAll net st1) = requests st ++ [put]
    ∧ status (ui (saveAll net st1)) = ("All changes saved", "saved")
    ∧ hasUnsavedChanges (saveAll net st1) = false.
Proof.
  intros segmentId newStart newEnd put Hi Hseg Hchunk Hfail Hnone.
  unfold handleRegionUpdate. fold segmentId. rewrite Hi, Hseg, Hchunk.
  fold newStart newEnd. eexists. split; [reflexivity|].
  assert (∀ id u (s : State D),
            undoBtn_disabled (ui (saveSegmentUpdate net id u s))
            = undoBtn_disabled (ui s)) as Hbtn.
  { intros id u s. unfold saveSegmentUpdate, fetch. simpl.
    by destruct (net (requests s) (PUT id u)). }
  match goal with
  | |- context [saveSegmentUpdate net ?id ?u ?s] =>
      destruct (saveSegmentUpdate_store net id u s)
        as (E1 & E2 & E3 & E4 & _ & E6);
      pose proof (saveSegmentUpdate_status net id u s) as E7;
      pose proof (Hbtn id u s) as E8;
      set (st1 := saveSegmentUpdate net id u s) in *
  end.
  simpl in E1, E2, E3, E4, E6, E7, E8. fold put in E6, E7. rewrite Hfail in E7.
  assert (deletedSegments st1 = []) as Hnone1 by (by rewrite E3).
  rewrite (saveAll_empty net st1 Hnone1). simpl.
  rewrite E1, list_lookup_alter_eq, Hseg. by rewrite E6.
Qed.

Lemma rejected_region_update_is_kept_and_reported_saved_witness :
  let net : list Request -> Request -> bool := λ _ _, false in
  ∃ st1 : State Z,
    handleRegionUpdate net (mkRegion (IdStr 42) 1 3) (sampleState None [] [])
      = Some st1
    ∧ status (ui st1) = ("Save failed", "error")
    ∧ hasUnsavedChanges (saveAll net st1) = false.
Proof.
  intros net.
  destruct (rejected_region_update_is_kept_and_reported_saved net
              (sampleState (D := Z) None [] []) (mkRegion (IdStr 42) 1 3) 1%nat
              (sampleSegment 42 (3 # 2) 2 "two") sampleChunk)
    as (st1 & H1 & _ & _ & _ & H3 & _ & _ & _ & _ & _ & _ & H9);
    [reflexivity..|].
  exists st1. split; [exact H1|]. split; [exact H3|exact H9].
Defined.

(** X2. A text cell.  Leaving it with Escape, or committing the text it
    already had, changes nothing and sends nothing.  A commit that
    changes the text sends one [PUT] that carries the [text] key only,
    and does not raise the unsaved flag (a region update does). *)
Theorem text_edit_commit_and_cancel {D : Type}
    (net : list Request -> Request -> bool) (st : State D) (i : nat)
    (segment : Segment) (newText : string) :
  segments st !! i = Some segment →
  finishTextEdit net i newText false st = st
  ∧ finishTextEdit net i (text segment) true st = st
  ∧ (newText ≠ text segment →
     let st1 := finishTextEdit net i newText true st in
     segments st1 !! i = Some (set_text newText segment)
     ∧ requests st1
       = requests st ++ [PUT (parseInt (segment_id segment))
                           (mkUpdates None None (Some newText) None None)]
     ∧ hasUnsavedChanges st1 = hasUnsavedChanges st
     ∧ deletedSegments st1 = deletedSegments st).
Proof.
  intros Hseg. unfold finishTextEdit. rewrite Hseg. simpl.
  split; [done|]. split; [by rewrite String.eqb_refl|].
  intros Hne. destruct (String.eqb newText (text segment)) eqn:Heq.
  { by apply String.eqb_eq in Heq. }
  simpl.
  match goal with
  | |- context [saveSegmentUpdate net ?id ?u ?s] =>
      destruct (saveSegmentUpdate_store net id u s)
        as (-> & _ & -> & -> & _ & ->)
  end.
  simpl. by rewrite list_lookup_alter_eq, Hseg.
Qed.

Lemma text_edit_commit_and_cancel_witness :
  finishTextEdit alwaysOk 1 "deux" false (sampleState (D := Z) None [] [])
  = sampleState None [] []
  ∧ hasUnsavedChanges
      (finishTextEdit alwaysOk 1 "deux" true (sampleState (D := Z) None [] []))
    = false.
Proof.
  destruct (text_edit_commit_and_cancel alwaysOk
              (sampleState (D := Z) None [] []) 1
              (sampleSegment 42 (3 # 2) 2 "two") "deux" eq_refl)
    as (H1 & _ & H3).
  split; [exact H1|].
  destruct H3 as (_ & _ & H & _); [discriminate|exact H].
Defined.

Lemma findIndex_insert_same {A : Type} (p : A -> bool) (l : list A) (i : nat)
    (x y : A) :
  l !! i = Some y → p x = p y → findIndex p (<[i := x]> l) = findIndex p l.
Proof.
  intros Hy Hp. revert i Hy.
  induction l as [|z l IH]; intros [|i] Hy; simpl in *; try done.
  - injection Hy as ->. by rewrite Hp.
  - by rewrite (IH i Hy).
Qed.

(** X3. Undo after a table time edit (soft-delete build).  The entry
    [{segmentId, time}] has neither [oldStart] nor [oldText]: [undo()]
    pops it, leaves the segment as the edit left it (the [start_time] or
    [end_time] property stays) and sends a [PUT] with an empty body. *)
Theorem time_edit_undo_restores_nothing
    (net : list Request -> Request -> bool) (parseFloat : string -> JsNumber)
    (st : State Z) (i : nat) (isStart : bool) (newTime : string)
    (segment : Segment) :
  segments st !! i = Some segment →
  findIndex (λ s, strictEq (segment_id s) (segment_id segment)) (segments st)
    = Some i →
  newTime ≠ toFixed2 (if isStart then start_sec segment else end_sec segment) →
  let st1 := SoftDelete.finishTimeEdit net parseFloat i isStart newTime true st in
  let st2 := SoftDelete.undo net st1 in
  segments st1 !! i
  = Some (if isStart then set_seg_start_time (parseFloat newTime) segment
          else set_seg_end_time (parseFloat newTime) segment)
  ∧ segments st2 = segments st1
  ∧ undoStack st2 = undoStack st
  ∧ requests st2
    = requests st1 ++ [PUT (parseInt (segment_id segment)) noUpdates].
Proof.
  intros Hseg Hi Hne st1 st2.
  assert (segments st1
          = <[i := if isStart
                   then set_seg_start_time (parseFloat newTime) segment
                   else set_seg_end_time (parseFloat newTime) segment]>
              (segments st)
          ∧ undoStack st1
            = undoStack st
              ++ [EditEntry (EditTime (segment_id segment)
                    (toFixed2 (if isStart then start_sec segment
                               else end_sec segment)))]) as (E1 & E2).
  { subst st1. unfold SoftDelete.finishTimeEdit. rewrite Hseg. simpl.
    destruct (String.eqb newTime _) eqn:Heq.
    { by apply String.eqb_eq in Heq. }
    simpl.
    match goal with
    | |- context [saveSegmentUpdate net ?id ?u ?s] =>
        destruct (saveSegmentUpdate_store net id u s) as (-> & -> & _)
    end.
    done. }
  assert (findIndex (λ s, strictEq (segment_id s) (segment_id segment))
            (segments st1) = Some i) as Hi1.
  { rewrite E1, (findIndex_insert_same _ _ _ _ segment Hseg); [done|].
    by destruct isStart. }
  subst st2. change (SoftDelete.undo net st1) with (undo_of Soft net st1).
  rewrite (undo_of_edit Soft net st1 _ _ E2).
  destruct (undoEdit_found net (selectSegment_of Soft)
              (EditTime (segment_id segment)
                 (toFixed2 (if isStart then start_sec segment
                            else end_sec segment)))
              (set_undoStack (undoStack st) st1) i
              (selectSegment_of_keeps Soft) Hi1) as (F1 & F2 & _ & F4).
  simpl in F1, F2, F4 |- *. rewrite F1, F2, F4.
  split; [|split; [by apply list_alter_id|done]].
  rewrite E1. apply list_lookup_insert_eq. by apply lookup_lt_Some in Hseg.
Qed.

Lemma time_edit_undo_restores_nothing_witness :
  let st1 :=
    SoftDelete.finishTimeEdit alwaysOk parseDecimal 1 true "1.75" true
      (sampleState None [] []) in
  segments (SoftDelete.undo alwaysOk st1) = segments st1
  ∧ requests (SoftDelete.undo alwaysOk st1)
    = requests st1 ++ [PUT 42 noUpdates].
Proof.
  intros st1.
  destruct (time_edit_undo_restores_nothing alwaysOk parseDecimal
              (sampleState None [] []) 1 true "1.75"
              (sampleSegment 42 (3 # 2) 2 "two"))
    as (_ & H2 & _ & H4); [reflexivity|reflexivity|discriminate|].
  split; [exact H2|exact H4].
Defined.

(** ** Finalizing deletions *)

Lemma filter_unmarked_none_marked (l : list Segment) (s : Segment) :
  s ∈ filter (λ s, markedForDeletion s = false) l → markedForDeletion s = false.
Proof. intros H. by apply list_elem_of_filter in H as [H _]. Qed.

(** X4. [finalizeDeletes()] is all or nothing on the client.  With no
    marked segment it only sets a status.  When every [DELETE] resolves,
    one call per marked segment was made, in array order; the marked
    segments are gone from the array, the pending list is empty, the
    undo stack has lost its delete entries, the unsaved flag is cleared
    and the finalize button is disabled.  When call [j] is the first to
    be rejected, the later calls are not made and the array, the
    pending list, the undo stack and the unsaved flag are untouched. *)
Theorem finalizeDeletes_all_or_nothing
    (net : list Request -> Request -> bool) (st : State Z) :
  let marked := filter (λ s, markedForDeletion s = true) (segments st) in
  let ids := map (λ s, parseInt (segment_id s)) marked in
  let st' := SoftDelete.finalizeDeletes net st in
  (marked = [] → st' = setStatus "No segments to finalize" "saved" st)
  ∧ (marked ≠ [] →
     (∀ k, resolves net (requests st) ids k) →
     requests st' = requests st ++ (DELETE <$> ids)
     ∧ segments st' = filter (λ s, markedForDeletion s = false) (segments st)
     ∧ (∀ s, s ∈ segments st' → markedForDeletion s = false)
     ∧ deletedSegments st' = []
     ∧ undoStack st' = filter (λ e, notDelete e = true) (undoStack st)
     ∧ hasUnsavedChanges st' = false
     ∧ finalizeBtn_disabled (ui st') = true)
  ∧ (∀ (j : nat) (id : Z),
       ids !! j = Some id →
       (∀ k, (k < j)%nat → resolves net (requests st) ids k) →
       net (requests st ++ (DELETE <$> take j ids)) (DELETE id) = false →
       requests st' = requests st ++ (DELETE <$> take (S j) ids)
       ∧ segments st' = segments st
       ∧ deletedSegments st' = deletedSegments st
       ∧ undoStack st' = undoStack st
       ∧ hasUnsavedChanges st' = hasUnsavedChanges st
       ∧ status (ui st') = ("Failed to delete segments", "error")).
Proof.
  intros marked ids st'. subst st'. unfold SoftDelete.finalizeDeletes.
  fold marked. fold ids. split; [|split].
  - intros ->. done.
  - intros Hne Hall.
    rewrite bool_decide_eq_false_2 by (destruct marked; [done|simpl; lia]).
    rewrite deleteEach_all by done. simpl.
    repeat split; try done. apply filter_unmarked_none_marked.
  - intros j id Hj Hbefore Hfail.
    rewrite bool_decide_eq_false_2
      by (destruct marked; [by destruct j|simpl; lia]).
    rewrite (deleteEach_first_failure net ids _ j id) by done.
    done.
Qed.

Lemma finalizeDeletes_all_or_nothing_witness :
  let st : State Z :=
    set_segments (alter (set_marked true) 1 sampleSegments)
      (sampleState None [DeleteEntry 42%Z] [42%Z]) in
  segments (SoftDelete.finalizeDeletes alwaysOk st)
  = [sampleSegment 41 0 1 "one"; sampleSegment 43 5 6 "three"]
  ∧ segments (SoftDelete.finalizeDeletes (rejectsDelete 42) st) = segments st
  ∧ deletedSegments (SoftDelete.finalizeDeletes (rejectsDelete 42) st)
    = [42%Z].
Proof.
  intros st. split.
  - destruct (proj1 (proj2 (finalizeDeletes_all_or_nothing alwaysOk st)))
      as (_ & H2 & _); [discriminate|intros k id _; reflexivity|exact H2].
  - destruct (proj2 (proj2 (finalizeDeletes_all_or_nothing
                              (rejectsDelete 42) st)) 0%nat 42%Z)
      as (_ & H2 & H3 & _); [reflexivity|intros k Hk; lia|reflexivity|].
    split; [exact H2|exact H3].
Defined.

(** X5. Saving and then finalizing deletes twice.  [saveAll()] sends a
    [DELETE] for every pending id but leaves the marked segments in the
    array; [finalizeDeletes()] takes its ids from the marks, not from
    the pending list, so with a server that accepts every call the
    marked segments are deleted a second time. *)
Theorem saveAll_then_finalizeDeletes_deletes_again
    (net : list Request -> Request -> bool) (st : State Z) :
  (∀ log r, net log r = true) →
  let ids :=
    map (λ s, parseInt (segment_id s))
      (filter (λ s, markedForDeletion s = true) (segments st)) in
  requests (saveAll net st) = requests st ++ (DELETE <$> deletedSegments st)
  ∧ requests (SoftDelete.finalizeDeletes net (saveAll net st))
    = requests st ++ (DELETE <$> deletedSegments st) ++ (DELETE <$> ids).
Proof.
  intros Hok ids.
  assert (requests (saveAll net st)
          = requests st ++ (DELETE <$> deletedSegments st)) as Hsave.
  { destruct (deletedSegments st) as [|id0 rest] eqn:Hids.
    - rewrite (saveAll_empty net st Hids). simpl. by rewrite app_nil_r.
    - assert (deletedSegments st ≠ []) as Hne by (by rewrite Hids).
      destruct (saveAll_resolved net st Hne) as (-> & _);
        [intros k id _; apply Hok|by rewrite Hids]. }
  split; [done|].
  unfold SoftDelete.finalizeDeletes. rewrite saveAll_segments. fold ids.
  case_bool_decide as Hnone.
  - simpl. rewrite Hsave.
    destruct (filter _ (segments st)); [|done].
    subst ids. simpl. by rewrite app_nil_r.
  - rewrite deleteEach_all by (intros k id _; apply Hok).
    simpl. by rewrite Hsave, <- app_assoc.
Qed.

Lemma saveAll_then_finalizeDeletes_deletes_again_witness :
  let st : State Z :=
    set_segments (alter (set_marked true) 1 sampleSegments)
      (sampleState None [DeleteEntry 42%Z] [42%Z]) in
  requests (SoftDelete.finalizeDeletes alwaysOk (saveAll alwaysOk st))
  = [DELETE 42; DELETE 42].
Proof.
  intros st.
  exact (proj2 (saveAll_then_finalizeDeletes_deletes_again alwaysOk st
                  (λ _ _, eq_refl))).
Defined.

(** ** The selection after a delete *)

Lemma findFrom_Some {A : Type} (k : nat) (p : nat -> A -> bool) (l : list A)
    (x : A) :
  findFrom k p l = Some x → ∃ j, l !! j = Some x ∧ p (k + j)%nat x = true.
Proof.
  revert k. induction l as [|y l IH]; intros k H; simpl in H; [done|].
  destruct (p k y) eqn:Hy.
  - injection H as <-. exists 0%nat. by rewrite Nat.add_0_r.
  - destruct (IH _ H) as (j & Hj & Hp). exists (S j).
    by rewrite Nat.add_succ_r.
Qed.

Lemma findFrom_None {A : Type} (k : nat) (p : nat -> A -> bool) (l : list A)
    (j : nat) (x : A) :
  findFrom k p l = None → l !! j = Some x → p (k + j)%nat x = false.
Proof.
  revert k j. induction l as [|y l IH]; intros k j H Hx; [done|].
  simpl in H. destruct (p k y) eqn:Hy; [done|].
  destruct j as [|j]; simpl in Hx.
  - injection Hx as <-. by rewrite Nat.add_0_r.
  - rewrite Nat.add_succ_r. by apply (IH (S k)).
Qed.

Lemma normalizeId_parseInt (x : JsId) : normalizeId x = parseInt x.
Proof. by destruct x. Qed.

Lemma soft_selectSegment_selected x (st : State Z) :
  selectedSegmentId (SoftDelete.selectSegment x st) = Some (parseInt x).
Proof.
  unfold SoftDelete.selectSegment.
  match goal with
  | |- context [zoomToSegment ?i ?s] =>
      destruct (zoomToSegment_store i s) as (_ & _ & _ & _ & -> & _)
  end.
  rewrite normalizeId_parseInt. simpl. by destruct (find _ _).
Qed.

Lemma hard_selectSegment_selected x (st : State (Segment * nat)) :
  selectedSegmentId (HardDelete.selectSegment x st) = Some (parseInt x).
Proof.
  unfold HardDelete.selectSegment.
  destruct (zoomToSegment_store (normalizeId x)
              (set_selectedSegmentId (Some (normalizeId x)) st))
    as (_ & _ & _ & _ & E & _).
  rewrite normalizeId_parseInt in *.
  destruct (find _ _); simpl; by rewrite E.
Qed.

(** X6. Where the selection goes after a soft delete.  After
    [deleteSelectedSegment()] has marked the segment at index [i], the
    selection is never on a marked segment: it names a segment of the
    array, other than the one just marked, that is not marked; and the
    selection is cleared (with the delete button disabled) only when
    every segment of the array is marked. *)
Theorem soft_delete_moves_selection_to_unmarked
    (st : State Z) (segmentId : Z) (i : nat) (segment : Segment) :
  selectedSegmentId st = Some segmentId →
  falsyId (Some segmentId) = false →
  findIndex (λ s, looseEq (segment_id s) (IdNum segmentId)) (segments st)
    = Some i →
  segments st !! i = Some segment →
  markedForDeletion segment = false →
  let st1 := SoftDelete.deleteSelectedSegment st in
  match selectedSegmentId st1 with
  | Some n =>
      ∃ j s, j ≠ i ∧ segments st1 !! j = Some s
             ∧ markedForDeletion s = false ∧ parseInt (segment_id s) = n
  | None =>
      (∀ s, s ∈ segments st1 → markedForDeletion s = true)
      ∧ deleteBtn_disabled (ui st1) = true
  end.
Proof.
  intros Hsel Hnz Hi Hseg Hm st1. subst st1.
  unfold SoftDelete.deleteSelectedSegment. rewrite Hsel, Hnz, Hi, Hseg, Hm.
  cbv zeta.
  match goal with
  | |- context [findFrom 0 ?p (segments ?s)] =>
      set (stA := s); set (pn := p)
  end.
  match goal with
  | |- context [findFrom 0 ?p (reverse (segments stA))] => set (pp := p)
  end.
  assert (segments stA = alter (set_marked true) i (segments st)) as HA
    by done.
  clearbody stA.
  destruct (findFrom 0 pn (segments stA)) as [s|] eqn:Hn.
  - rewrite soft_selectSegment_selected.
    destruct (soft_selectSegment_keeps (segment_id s) stA) as (-> & _).
    destruct (findFrom_Some _ _ _ _ Hn) as (j & Hj & Hp).
    subst pn. simpl in Hp. apply andb_prop in Hp as [Hlt Hun].
    apply bool_decide_eq_true in Hlt. apply negb_true_iff in Hun.
    exists j, s. repeat split; try done. lia.
  - destruct (findFrom 0 pp (reverse (segments stA))) as [s|] eqn:Hp.
    + rewrite soft_selectSegment_selected.
      destruct (soft_selectSegment_keeps (segment_id s) stA) as (-> & _).
      destruct (findFrom_Some _ _ _ _ Hp) as (j & Hj & Hq).
      apply reverse_lookup_Some in Hj as [Hj Hlen].
      subst pp. simpl in Hq. apply andb_prop in Hq as [Hlt Hun].
      apply bool_decide_eq_true in Hlt. apply negb_true_iff in Hun.
      exists (length (segments stA) - S j)%nat, s.
      repeat split; try done. lia.
    + simpl. split; [|done]. intros s Hs.
      apply list_elem_of_lookup in Hs as [j Hj].
      destruct (decide (i < j)%nat) as [Hlt|Hge].
      { pose proof (findFrom_None _ _ _ j s Hn Hj) as Hq.
        subst pn. simpl in Hq.
        rewrite bool_decide_eq_true_2 in Hq by done. simpl in Hq.
        by apply negb_false_iff in Hq. }
      destruct (decide (j = i)) as [->|Hne].
      { rewrite HA, list_lookup_alter_eq, Hseg in Hj. by injection Hj as <-. }
      assert (j < length (segments stA))%nat as Hlen
        by (by apply lookup_lt_Some in Hj).
      assert (reverse (segments stA)
                !! (length (segments stA) - S j)%nat = Some s) as Hr.
      { apply reverse_lookup_Some. split; [|lia].
        by replace (length (segments stA)
                    - S (length (segments stA) - S j))%nat with j by lia. }
      pose proof (findFrom_None _ _ _ _ s Hp Hr) as Hq.
      subst pp. simpl in Hq.
      rewrite bool_decide_eq_true_2 in Hq by lia. simpl in Hq.
      by apply negb_false_iff in Hq.
Qed.

Lemma soft_delete_moves_selection_to_unmarked_witness :
  let st1 := SoftDelete.deleteSelectedSegment (sampleState (Some 43%Z) [] []) in
  ∃ j s, j ≠ 2%nat ∧ segments st1 !! j = Some s
         ∧ markedForDeletion s = false ∧ parseInt (segment_id s) = 42%Z.
Proof.
  intros st1.
  pose proof (soft_delete_moves_selection_to_unmarked
                (sampleState (Some 43%Z) [] []) 43 2
                (sampleSegment 43 5 6 "three") eq_refl eq_refl eq_refl eq_refl
                eq_refl) as H.
  assert (selectedSegmentId st1 = Some 42%Z) as E by (by vm_compute).
  cbv zeta in H. fold st1 in H. rewrite E in H. exact H.
Defined.

(** X7. Where the selection goes after a hard delete.  After the
    segment at index [i] has been removed, the selection is on the
    segment that followed it; when the removed segment was the last of
    the array, on the one before it; and when it was the only one, the
    selection is cleared and the delete button disabled. *)
Theorem hard_delete_moves_selection_to_neighbour
    (st : State (Segment * nat)) (segmentId : Z) (i : nat) (segment : Segment) :
  selectedSegmentId st = Some segmentId →
  falsyId (Some segmentId) = false →
  findIndex (λ s, strictEq (segment_id s) (IdNum segmentId)) (segments st)
    = Some i →
  segments st !! i = Some segment →
  let st1 := HardDelete.deleteSelectedSegment st in
  selectedSegmentId st1
  = match segments st !! S i with
    | Some next => Some (parseInt (segment_id next))
    | None =>
        match i with
        | S k => (λ s, parseInt (segment_id s)) <$> segments st !! k
        | O => None
        end
    end
  ∧ (segments st1 = [] →
     selectedSegmentId st1 = None ∧ deleteBtn_disabled (ui st1) = true).
Proof.
  intros Hsel Hnz Hi Hseg st1. subst st1.
  unfold HardDelete.deleteSelectedSegment. rewrite Hsel, Hnz, Hi, Hseg.
  cbv zeta.
  match goal with
  | |- context [bool_decide (0 < length (segments ?s))%nat] => set (stA := s)
  end.
  assert (segments stA = delete i (segments st)) as HA by done.
  assert (selectedSegmentId stA = None) as HselA by done.
  assert (deleteBtn_disabled (ui stA) = true) as HbtnA by done.
  clearbody stA.
  pose proof (lookup_lt_Some _ _ _ Hseg) as Hlen.
  assert (length (segments stA) = (length (segments st) - 1)%nat) as HlenA.
  { rewrite HA. apply length_delete. by exists segment. }
  case_bool_decide as Hpos.
  - destruct (segments stA !! (i `min` (length (segments stA) - 1))%nat)
      as [s|] eqn:Hs.
    + rewrite hard_selectSegment_selected.
      destruct (hard_selectSegment_keeps (segment_id s) stA) as (-> & _).
      split; [|intros Hnil; rewrite Hnil in Hpos; simpl in Hpos; lia].
      rewrite HlenA, HA in Hs.
      destruct (segments st !! S i) as [next|] eqn:Hnext.
      * apply lookup_lt_Some in Hnext as Hlt.
        rewrite Nat.min_l in Hs by lia.
        rewrite list_lookup_delete_ge, Hnext in Hs by lia.
        by injection Hs as <-.
      * apply lookup_ge_None in Hnext.
        destruct i as [|k]; [lia|].
        rewrite Nat.min_r in Hs by lia.
        replace (length (segments st) - 1 - 1)%nat with k in Hs by lia.
        rewrite list_lookup_delete_lt in Hs by lia. by rewrite Hs.
    + apply lookup_ge_None in Hs. lia.
  - rewrite HselA, HbtnA. split; [|done].
    assert (length (segments st) = 1%nat) as Hone by lia.
    assert (i = 0%nat) as -> by lia.
    rewrite (lookup_ge_None_2 (segments st) 1); [done|lia].
Qed.

Lemma hard_delete_moves_selection_to_neighbour_witness :
  selectedSegmentId
    (HardDelete.deleteSelectedSegment (sampleState (Some 43%Z) [] []))
  = Some 42%Z.
Proof.
  exact (proj1 (hard_delete_moves_selection_to_neighbour
                  (sampleState (Some 43%Z) [] []) 43 2
                  (sampleSegment 43 5 6 "three") eq_refl eq_refl eq_refl
                  eq_refl)).
Defined.

(** ** Arrow keys *)

Lemma selectSegment_of_selected b x (st : State (payload b)) :
  selectedSegmentId (selectSegment_of b x st) = Some (parseInt x).
Proof.
  destruct b; [apply soft_selectSegment_selected
              |apply hard_selectSegment_selected].
Qed.

Lemma strictEq_num (x : JsId) (n : Z) :
  strictEq x (IdNum n) = true → x = IdNum n.
Proof.
  destruct x as [m|m]; simpl; [|done]. by intros ->%Z.eqb_eq.
Qed.

Lemma navigateSegment_at b (d : Z) (st : State (payload b)) (sel : Z) (i : nat) :
  selectedSegmentId st = Some sel →
  findIndex (λ s, strictEq (segment_id s) (IdNum sel)) (segments st) = Some i →
  navigateSegment b d st
  = if ((0 <=? Z.of_nat i + d)
        && (Z.of_nat i + d <? Z.of_nat (length (segments st))))%Z
    then match segments st !! Z.to_nat (Z.of_nat i + d) with
         | Some segment => selectSegment_of b (segment_id segment) st
         | None => st
         end
    else st.
Proof. intros Hsel Hi. unfold navigateSegment. by rewrite Hsel, Hi. Qed.

(** X8. The arrow keys.  With the selected segment at index [i] of the
    array: the right arrow on the last segment and the left arrow on
    the first one change nothing; the right arrow otherwise selects the
    segment at [i + 1], and the left arrow pressed next brings the
    selection back (when that neighbour is found under its own numeric
    id at [i + 1]).  With nothing selected the left arrow does nothing.
    No arrow key touches the segments, the history, the pending
    deletions or the request log. *)
Theorem navigateSegment_steps_between_neighbours
    (b : Build) (st : State (payload b)) :
  (∀ (sel : Z) (i : nat),
     selectedSegmentId st = Some sel →
     findIndex (λ s, strictEq (segment_id s) (IdNum sel)) (segments st)
       = Some i →
     (segments st !! S i = None → navigateSegment b 1 st = st)
     ∧ (i = 0%nat → navigateSegment b (-1) st = st)
     ∧ (∀ next,
          segments st !! S i = Some next →
          selectedSegmentId (navigateSegment b 1 st)
          = Some (parseInt (segment_id next))
          ∧ (findIndex (λ s, strictEq (segment_id s)
                               (IdNum (parseInt (segment_id next))))
               (segments st) = Some (S i) →
             selectedSegmentId (navigateSegment b (-1) (navigateSegment b 1 st))
             = Some sel)))
  ∧ (selectedSegmentId st = None → navigateSegment b (-1) st = st)
  ∧ (∀ d, keeps_store (navigateSegment b d)).
Proof.
  split; [|split].
  - intros sel i Hsel Hi.
    destruct (findIndex_lookup _ _ _ Hi) as (cur & Hcur & Hid).
    apply strictEq_num in Hid.
    pose proof (lookup_lt_Some _ _ _ Hcur) as Hlen.
    split; [|split].
    + intros Hlast. rewrite (navigateSegment_at b 1 st sel i Hsel Hi).
      apply lookup_ge_None in Hlast.
      destruct (Z.ltb_spec (Z.of_nat i + 1) (Z.of_nat (length (segments st))));
        [lia|]. by rewrite andb_false_r.
    + intros ->. rewrite (navigateSegment_at b (-1) st sel 0 Hsel Hi). done.
    + intros next Hnext.
      pose proof (lookup_lt_Some _ _ _ Hnext) as Hlt.
      assert (navigateSegment b 1 st = selectSegment_of b (segment_id next) st)
        as Hstep.
      { rewrite (navigateSegment_at b 1 st sel i Hsel Hi).
        destruct (Z.leb_spec 0 (Z.of_nat i + 1)); [|lia].
        destruct (Z.ltb_spec (Z.of_nat i + 1)
                    (Z.of_nat (length (segments st)))); [|lia].
        simpl. replace (Z.to_nat (Z.of_nat i + 1)) with (S i) by lia.
        by rewrite Hnext. }
      rewrite Hstep, selectSegment_of_selected. split; [done|].
      intros Hfirst.
      destruct (selectSegment_of_keeps b (segment_id next) st) as (Hsegs & _).
      rewrite (navigateSegment_at b (-1) _ (parseInt (segment_id next)) (S i));
        [|apply selectSegment_of_selected|by rewrite Hsegs].
      rewrite Hsegs.
      destruct (Z.leb_spec 0 (Z.of_nat (S i) + -1)); [|lia].
      destruct (Z.ltb_spec (Z.of_nat (S i) + -1)
                  (Z.of_nat (length (segments st)))); [|lia].
      simpl andb. cbv iota.
      replace (Z.to_nat (Z.of_nat (S i) + -1)) with i by lia.
      rewrite Hcur, selectSegment_of_selected. by rewrite Hid.
  - intros Hsel. unfold navigateSegment. by rewrite Hsel.
  - intros d st'. unfold navigateSegment.
    destruct (_ && _); [|done].
    destruct (segments st' !! _); [|done].
    apply selectSegment_of_keeps.
Qed.

Lemma navigateSegment_steps_between_neighbours_witness :
  selectedSegmentId
    (navigateSegment Soft 1 (sampleState (Some 42%Z) [] [])) = Some 43%Z
  ∧ selectedSegmentId
      (navigateSegment Soft (-1)
         (navigateSegment Soft 1 (sampleState (Some 42%Z) [] []))) = Some 42%Z.
Proof.
  destruct (proj2 (proj2 (proj1 (navigateSegment_steps_between_neighbours Soft
              (sampleState (Some 42%Z) [] [])) 42%Z 1%nat eq_refl eq_refl))
              (sampleSegment 43 5 6 "three") eq_refl) as (H1 & H2).
  split; [exact H1|exact (H2 eq_refl)].
Defined.

(** ** Undo over a sequence of actions *)

Lemma strictEq_eq (a b : JsId) : strictEq a b = true ↔ a = b.
Proof.
  destruct a as [x|x], b as [y|y]; simpl; try (split; done);
    rewrite Z.eqb_eq; split; congruence.
Qed.

(** With distinct ids, the segment at index [i] is the one a lookup by
    its own id finds. *)
Lemma findIndex_unique (l : list Segment) (i : nat) (segment : Segment) :
  NoDup (segment_id <$> l) →
  l !! i = Some segment →
  findIndex (λ s, strictEq (segment_id s) (segment_id segment)) l = Some i.
Proof.
  revert i. induction l as [|y l IH]; intros i Hnd Hseg; [done|].
  apply NoDup_cons in Hnd as [Hy Hnd]. destruct i as [|i]; simpl in *.
  - injection Hseg as ->.
    by rewrite (proj2 (strictEq_eq _ _) eq_refl).
  - destruct (strictEq (segment_id y) (segment_id segment)) eqn:Heq.
    + apply strictEq_eq in Heq. exfalso. apply Hy. rewrite Heq.
      apply list_elem_of_fmap. exists segment. split; [done|].
      apply list_elem_of_lookup. by exists i.
    + by rewrite (IH i Hnd Hseg).
Qed.

Section Chunk_frames.
Context {D : Type}.
Variable net : list Request -> Request -> bool.
Implicit Type st : State D.

Lemma saveSegmentUpdate_chunk id u st :
  currentChunk (saveSegmentUpdate net id u st) = currentChunk st.
Proof.
  unfold saveSegmentUpdate, fetch; simpl.
  by destruct (net (requests st) (PUT id u)).
Qed.

Lemma zoomToSegment_chunk id st :
  currentChunk (zoomToSegment id st) = currentChunk st.
Proof.
  unfold zoomToSegment.
  destruct (find _ (segments st)); [|done].
  by destruct (currentChunk st) eqn:E.
Qed.

Lemma finishTextEdit_chunk i t save st :
  currentChunk (finishTextEdit net i t save st) = currentChunk st.
Proof.
  unfold finishTextEdit. destruct (segments st !! i); [|done].
  destruct (save && _); [|done]. by rewrite saveSegmentUpdate_chunk.
Qed.
End Chunk_frames.

Lemma soft_selectSegment_chunk x (st : State Z) :
  currentChunk (SoftDelete.selectSegment x st) = currentChunk st.
Proof.
  unfold SoftDelete.selectSegment. rewrite zoomToSegment_chunk.
  by destruct (find _ _).
Qed.

Lemma hard_selectSegment_chunk x (st : State (Segment * nat)) :
  currentChunk (HardDelete.selectSegment x st) = currentChunk st.
Proof.
  unfold HardDelete.selectSegment.
  pose proof (zoomToSegment_chunk (normalizeId x)
                (set_selectedSegmentId (Some (normalizeId x)) st)) as E.
  set (z := zoomToSegment _ _) in *. clearbody z.
  by destruct (find _ _).
Qed.

Lemma selectSegment_of_chunk b x (st : State (payload b)) :
  currentChunk (selectSegment_of b x st) = currentChunk st.
Proof.
  destruct b; [apply soft_selectSegment_chunk|apply hard_selectSegment_chunk].
Qed.

Lemma navigateSegment_chunk b d (st : State (payload b)) :
  currentChunk (navigateSegment b d st) = currentChunk st.
Proof.
  unfold navigateSegment. destruct (_ && _); [|done].
  destruct (segments st !! _); [|done]. apply selectSegment_of_chunk.
Qed.

Lemma deleteSelectedSegment_of_chunk b (st : State (payload b)) :
  currentChunk (deleteSelectedSegment_of b st) = currentChunk st.
Proof.
  destruct b; simpl.
  - unfold SoftDelete.deleteSelectedSegment.
    repeat match goal with
    | |- context [if ?c then _ else _] => destruct c
    | |- context [match ?o with Some _ => _ | None => _ end] => destruct o
    | |- context [SoftDelete.selectSegment ?x ?s] =>
        rewrite (soft_selectSegment_chunk x s)
    end; done.
  - unfold HardDelete.deleteSelectedSegment.
    repeat match goal with
    | |- context [if ?c then _ else _] => destruct c
    | |- context [match ?o with Some _ => _ | None => _ end] => destruct o
    | |- context [HardDelete.selectSegment ?x ?s] =>
        rewrite (hard_selectSegment_chunk x s)
    end; done.
Qed.

Lemma edit_entry_reverts b net (st st1 : State (payload b)) (e : Edit)
    (i : nat) (segment : Segment) (f : Segment -> Segment) :
  segments st !! i = Some segment →
  findIndex (λ s, strictEq (segment_id s) (edit_segmentId e)) (segments st)
    = Some i →
  (∀ x, segment_id (f x) = segment_id x) →
  restoreFields e (f segment) = segment →
  segments st1 = alter f i (segments st) →
  undoStack st1 = undoStack st ++ [EditEntry e] →
  reverts b net st st1.
Proof.
  intros Hseg Hi Hid Hback Hsegs Hstack. right. exists (EditEntry e).
  split; [done|]. intros X HX1 HX2. rewrite Hstack in HX2.
  rewrite (undo_of_edit b net X _ _ HX2).
  destruct (undoEdit_found net (selectSegment_of b) e
              (set_undoStack (undoStack st) X) i (selectSegment_of_keeps b))
    as (F1 & F2 & _).
  { cbn [segments set_undoStack]. rewrite HX1, Hsegs.
    rewrite findIndex_alter; [done|]. intros x. by rewrite Hid. }
  rewrite F1, F2. cbn [segments undoStack set_undoStack].
  rewrite HX1, Hsegs. split; [|done].
  by apply (alter_restore _ _ _ _ segment).
Qed.

Lemma handleRegionUpdate_reverts b net region (st : State (payload b)) :
  (∀ chunk, currentChunk st = Some chunk →
            is_Some (handleRegionUpdate net region st))
  ∧ (∀ st1, handleRegionUpdate net region st = Some st1 →
            reverts b net st st1
            ∧ segment_id <$> segments st1 = segment_id <$> segments st
            ∧ currentChunk st1 = currentChunk st).
Proof.
  unfold handleRegionUpdate.
  destruct (findIndex _ (segments st)) as [i|] eqn:Hi.
  2:{ split; [by eexists|]. intros st1 [= <-]. split; [by left|done]. }
  destruct (findIndex_lookup _ _ _ Hi) as (segment & Hseg & _).
  rewrite Hseg. destruct (currentChunk st) as [chunk|] eqn:Hchunk.
  2:{ split; [done|]. intros st1 [=]. }
  split; [by eexists|]. intros st1 [= <-].
  match goal with
  | |- context [saveSegmentUpdate net ?id ?u ?s] =>
      destruct (saveSegmentUpdate_store net id u s) as (E1 & E2 & _);
      pose proof (saveSegmentUpdate_chunk net id u s) as E3;
      set (st1 := saveSegmentUpdate net id u s) in *
  end.
  simpl in E1, E2, E3. split; [|split].
  - apply (edit_entry_reverts b net st st1
             (EditTimes (parseInt (region_id region)) (start_sec segment)
                (end_sec segment)) i segment
             (set_times (region_start region + start_time chunk)
                (region_end region + start_time chunk))); try done.
    by destruct segment.
  - rewrite E1. by apply fmap_alter_same.
  - by rewrite E3.
Qed.

Lemma finishTextEdit_reverts b net i newText save (st : State (payload b)) :
  NoDup (segment_id <$> segments st) →
  let st1 := finishTextEdit net i newText save st in
  reverts b net st st1
  ∧ segment_id <$> segments st1 = segment_id <$> segments st.
Proof.
  intros Hnd st1. subst st1. unfold finishTextEdit.
  destruct (segments st !! i) as [segment|] eqn:Hseg; [|split; [by left|done]].
  destruct (save && _); [|split; [by left|done]].
  match goal with
  | |- context [saveSegmentUpdate net ?id ?u ?s] =>
      destruct (saveSegmentUpdate_store net id u s) as (E1 & E2 & _);
      set (st1 := saveSegmentUpdate net id u s) in *
  end.
  simpl in E1, E2. split.
  - apply (edit_entry_reverts b net st st1
             (EditText (segment_id segment) (text segment)) i segment
             (set_text newText)); try done.
    + by apply findIndex_unique.
    + by destruct segment.
  - rewrite E1. by apply fmap_alter_same.
Qed.

Lemma soft_delete_reverts net (st : State Z) :
  let st1 := SoftDelete.deleteSelectedSegment st in
  reverts Soft net st st1
  ∧ segment_id <$> segments st1 = segment_id <$> segments st.
Proof.
  intros st1. subst st1.
  destruct (selectedSegmentId st) as [segmentId|] eqn:Hsel;
    [|unfold SoftDelete.deleteSelectedSegment; rewrite Hsel;
      split; [by left|done]].
  destruct (falsyId (Some segmentId)) eqn:Hnz;
    [unfold SoftDelete.deleteSelectedSegment; rewrite Hsel, Hnz;
     split; [by left|done]|].
  destruct (findIndex (λ s, looseEq (segment_id s) (IdNum segmentId))
              (segments st)) as [i|] eqn:Hi;
    [|unfold SoftDelete.deleteSelectedSegment; rewrite Hsel, Hnz, Hi;
      split; [by left|done]].
  destruct (findIndex_lookup _ _ _ Hi) as (segment & Hseg & _).
  destruct (markedForDeletion segment) eqn:Hm;
    [unfold SoftDelete.deleteSelectedSegment; rewrite Hsel, Hnz, Hi, Hseg, Hm;
     split; [by left|done]|].
  destruct (soft_delete_marks st segmentId i segment Hsel Hnz Hi Hseg Hm)
    as (E1 & E2 & _).
  split; [|rewrite E1; by apply fmap_alter_same].
  right. exists (DeleteEntry segmentId). split; [done|].
  intros X HX1 HX2. cbn [payload] in *. rewrite E2 in HX2.
  destruct (soft_undo_delete net X (undoStack st) segmentId i HX2)
    as (F1 & F2 & _).
  { rewrite HX1, E1. by rewrite findIndex_alter. }
  simpl. rewrite F1, F2, HX1, E1. split; [|done].
  apply (alter_restore _ _ _ _ segment Hseg).
  destruct segment; simpl in *. by rewrite Hm.
Qed.

Lemma hard_delete_removes (st : State (Segment * nat)) segmentId i segment :
  selectedSegmentId st = Some segmentId →
  falsyId (Some segmentId) = false →
  findIndex (λ s, strictEq (segment_id s) (IdNum segmentId)) (segments st)
    = Some i →
  segments st !! i = Some segment →
  let st1 := HardDelete.deleteSelectedSegment st in
  segments st1 = delete i (segments st)
  ∧ undoStack st1 = undoStack st ++ [DeleteEntry (segment, i)]
  ∧ deletedSegments st1 = deletedSegments st ++ [segmentId]
  ∧ requests st1 = requests st.
Proof.
  intros Hsel Hnz Hi Hseg st1. subst st1.
  unfold HardDelete.deleteSelectedSegment. rewrite Hsel, Hnz, Hi, Hseg.
  repeat match goal with
  | |- context [if ?c then _ else _] => destruct c
  | |- context [match ?o with Some _ => _ | None => _ end] => destruct o
  | |- context [HardDelete.selectSegment ?x ?s] =>
      destruct (hard_selectSegment_keeps x s) as (-> & -> & -> & _ & ->)
  end; done.
Qed.

Lemma hard_undo_delete net (st : State (Segment * nat)) rest segment i :
  undoStack st = rest ++ [DeleteEntry (segment, i)] →
  let st' := HardDelete.undo net st in
  segments st' = spliceIn i segment (segments st)
  ∧ undoStack st' = rest
  ∧ deletedSegments st'
    = HardDelete.forgetDeleted (segment_id segment) (deletedSegments st)
  ∧ requests st' = requests st
  ∧ selectedSegmentId st' = Some (parseInt (segment_id segment)).
Proof.
  intros Hst st'. subst st'. unfold HardDelete.undo. rewrite Hst, pop_snoc.
  match goal with
  | |- context [HardDelete.selectSegment ?x ?s] =>
      destruct (hard_selectSegment_keeps x s) as (G1 & G2 & G3 & _ & G5);
      pose proof (hard_selectSegment_selected x s) as G6
  end.
  simpl in *. by rewrite G1, G2, G3, G5, G6.
Qed.

Lemma hard_delete_reverts net (st : State (Segment * nat)) :
  NoDup (segment_id <$> segments st) →
  let st1 := HardDelete.deleteSelectedSegment st in
  reverts Hard net st st1 ∧ NoDup (segment_id <$> segments st1).
Proof.
  intros Hnd st1. subst st1.
  destruct (selectedSegmentId st) as [segmentId|] eqn:Hsel;
    [|unfold HardDelete.deleteSelectedSegment; rewrite Hsel;
      split; [by left|done]].
  destruct (falsyId (Some segmentId)) eqn:Hnz;
    [unfold HardDelete.deleteSelectedSegment; rewrite Hsel, Hnz;
     split; [by left|done]|].
  destruct (findIndex (λ s, strictEq (segment_id s) (IdNum segmentId))
              (segments st)) as [i|] eqn:Hi;
    [|unfold HardDelete.deleteSelectedSegment; rewrite Hsel, Hnz, Hi;
      split; [by left|done]].
  destruct (findIndex_lookup _ _ _ Hi) as (segment & Hseg & _).
  destruct (hard_delete_removes st segmentId i segment Hsel Hnz Hi Hseg)
    as (E1 & E2 & _).
  split.
  - right. exists (DeleteEntry (segment, i)). split; [done|].
    intros X HX1 HX2. cbn [payload] in *. rewrite E2 in HX2.
    destruct (hard_undo_delete net X (undoStack st) segment i HX2)
      as (F1 & F2 & _).
    simpl. rewrite F1, F2, HX1, E1. split; [|done].
    by apply spliceIn_delete.
  - rewrite E1, list_fmap_delete.
    apply (sublist_NoDup _ (segment_id <$> segments st)); [done|].
    apply sublist_delete.
Qed.

Lemma navigateSegment_keeps b d : keeps_store (navigateSegment b d).
Proof.
  intros st. unfold navigateSegment. destruct (_ && _); [|done].
  destruct (segments st !! _); [|done]. apply selectSegment_of_keeps.
Qed.

Lemma perform_reverts b net (a : Action) (st : State (payload b)) chunk :
  currentChunk st = Some chunk →
  NoDup (segment_id <$> segments st) →
  ∃ st1, perform b net a st = Some st1
         ∧ reverts b net st st1
         ∧ NoDup (segment_id <$> segments st1)
         ∧ currentChunk st1 = Some chunk.
Proof.
  intros Hchunk Hnd. destruct a as [region|i newText save|x|d|]; simpl.
  - destruct (handleRegionUpdate_reverts b net region st) as (Hsome & Hrev).
    destruct (Hsome chunk Hchunk) as [st1 Hst1]. exists st1.
    destruct (Hrev st1 Hst1) as (H1 & H2 & H3).
    split; [done|]. split; [done|]. split; [by rewrite H2|by rewrite H3].
  - eexists. split; [reflexivity|].
    destruct (finishTextEdit_reverts b net i newText save st Hnd) as (H1 & H2).
    split; [done|]. split; [by rewrite H2|].
    by rewrite finishTextEdit_chunk.
  - eexists. split; [reflexivity|].
    destruct (selectSegment_of_keeps b x st) as (H1 & H2 & _).
    split; [by left|]. split; [by rewrite H1|].
    by rewrite selectSegment_of_chunk.
  - eexists. split; [reflexivity|].
    destruct (navigateSegment_keeps b d st) as (H1 & H2 & _).
    split; [by left|]. split; [by rewrite H1|].
    by rewrite navigateSegment_chunk.
  - eexists. split; [reflexivity|].
    rewrite deleteSelectedSegment_of_chunk. split; [|split; [|done]].
    + destruct b; simpl.
      * apply soft_delete_reverts.
      * by apply hard_delete_reverts.
    + destruct b; simpl.
      * destruct (soft_delete_reverts net st) as (_ & H). by rewrite H.
      * by apply (hard_delete_reverts net).
Qed.

Lemma performAll_reverts b net (acts : list Action) :
  ∀ (st : State (payload b)) chunk,
    currentChunk st = Some chunk →
    NoDup (segment_id <$> segments st) →
    ∃ st' pushed,
      performAll b net acts st = Some st'
      ∧ undoStack st' = undoStack st ++ pushed
      ∧ ∀ X : State (payload b),
          segments X = segments st' → undoStack X = undoStack st' →
          segments (undoTimes b net (length pushed) X) = segments st
          ∧ undoStack (undoTimes b net (length pushed) X) = undoStack st.
Proof.
  induction acts as [|a acts IH]; intros st chunk Hchunk Hnd.
  - exists st, []. split; [done|]. split; [by rewrite app_nil_r|].
    intros X HX1 HX2. done.
  - destruct (perform_reverts b net a st chunk Hchunk Hnd)
      as (st1 & Hst1 & Hrev & Hnd1 & Hchunk1).
    destruct (IH st1 chunk Hchunk1 Hnd1) as (st' & pushed & Hst' & Hstack & Hun).
    simpl. rewrite Hst1. simpl. destruct Hrev as [[E1 E2]|(e & E2 & Hone)].
    + exists st', pushed. split; [done|]. rewrite <- E1, <- E2. done.
    + exists st', (e :: pushed). split; [done|]. split.
      { rewrite Hstack, E2, <- app_assoc. done. }
      intros X HX1 HX2. destruct (Hun X HX1 HX2) as (Y1 & Y2).
      apply (Hone _ Y1 Y2).
Qed.

(** X9. Undo is last-in first-out over any sequence of actions.  Take a
    loaded chunk whose segment ids are distinct and any sequence of
    region updates, text commits, selections, arrow keys and deletes.
    No handler throws, and calling [undo()] once per entry that the
    sequence pushed brings [state.segments] and [state.undoStack] back
    to what they were before the sequence, in both builds. *)
Theorem undo_reverts_any_sequence
    (b : Build) (net : list Request -> Request -> bool)
    (acts : list Action) (st : State (payload b)) (chunk : Chunk) :
  currentChunk st = Some chunk →
  NoDup (segment_id <$> segments st) →
  ∃ st',
    performAll b net acts st = Some st'
    ∧ (length (undoStack st) ≤ length (undoStack st'))%nat
    ∧ let pushed := (length (undoStack st') - length (undoStack st))%nat in
      segments (undoTimes b net pushed st') = segments st
      ∧ undoStack (undoTimes b net pushed st') = undoStack st.
Proof.
  intros Hchunk Hnd.
  destruct (performAll_reverts b net acts st chunk Hchunk Hnd)
    as (st' & pushed & Hst' & Hstack & Hun).
  exists st'. split; [done|]. rewrite Hstack, length_app.
  split; [lia|].
  replace (length (undoStack st) + length pushed - length (undoStack st))%nat
    with (length pushed) by lia.
  by apply Hun.
Qed.

Lemma sampleSegments_distinct : NoDup (segment_id <$> sampleSegments).
Proof.
  repeat (apply NoDup_cons_2;
          [intros H;
           repeat (apply elem_of_cons in H as [H|H]; [discriminate H|]);
           by apply elem_of_nil in H|]).
  apply NoDup_nil_2.
Defined.

Lemma undo_reverts_any_sequence_witness :
  let acts :=
    [ActSelect (IdStr 42); ActRegionUpdate (mkRegion (IdStr 43) 4 7);
     ActDelete; ActTextEdit 0 "uno" true; ActNavigate 1; ActDelete] in
  ∃ st' : State (payload Hard),
    performAll Hard alwaysOk acts (sampleState None [] []) = Some st'
    ∧ segments (undoTimes Hard alwaysOk
                  (length (undoStack st') - 0) st') = sampleSegments.
Proof.
  intros acts.
  destruct (undo_reverts_any_sequence Hard alwaysOk acts
              (sampleState None [] []) sampleChunk eq_refl
              sampleSegments_distinct) as (st' & H1 & _ & H3 & _).
  exists st'. split; [exact H1|exact H3].
Defined.

(** ** Regions *)

Lemma regionFor_spec (chunkStart duration : Q) (segment : Segment) (m : Marker) :
  regionFor chunkStart duration segment = Some m →
  (0 <= end_sec segment - chunkStart)%Q
  ∧ (start_sec segment - chunkStart <= duration)%Q
  ∧ marker_region m
    = mkRegion (IdStr (parseInt (segment_id segment)))
        (Qmax 0 (start_sec segment - chunkStart))
        (Qmin duration (end_sec segment - chunkStart))
  ∧ (marker_color m = gapColor ∨ marker_color m = defaultColor).
Proof.
  unfold regionFor.
  destruct (Qlt_le_dec (end_sec segment - chunkStart) 0) as [|H1]; [done|].
  destruct (Qlt_le_dec duration (start_sec segment - chunkStart)) as [|H2];
    [done|].
  intros [= <-]. simpl. repeat split; try done.
  destruct (isGap segment); [by left|by right].
Qed.

Lemma regionFor_visible (chunkStart duration : Q) (segment : Segment) :
  (0 <= end_sec segment - chunkStart)%Q →
  (start_sec segment - chunkStart <= duration)%Q →
  is_Some (regionFor chunkStart duration segment).
Proof.
  intros H1 H2. unfold regionFor.
  destruct (Qlt_le_dec (end_sec segment - chunkStart) 0) as [H|_]; [lra|].
  destruct (Qlt_le_dec duration (start_sec segment - chunkStart)) as [H|_];
    [lra|].
  by eexists.
Qed.

(** The colour [highlightRegion] gives to each region: that of the
    selection for the region whose id spells [id], and for the others
    the gap colour when the segment found under the region's id, by
    [===] with the number, is a gap. *)
Lemma highlightRegion_color {D : Type} (id : Z) (st : State D)
    (regions : list Marker) (m : Marker) :
  m ∈ highlightRegion id st regions →
  ∃ m0, m0 ∈ regions ∧ marker_region m = marker_region m0
        ∧ marker_color m
          = if (parseInt (region_id (marker_region m0)) =? id)%Z
            then selectedColor
            else match find (λ s, strictEq (segment_id s)
                                    (IdNum (parseInt
                                              (region_id (marker_region m0)))))
                         (segments st) with
                 | Some s => if isGap s then gapColor else defaultColor
                 | None => defaultColor
                 end.
Proof.
  unfold highlightRegion. intros H.
  apply list_elem_of_fmap in H as (m0 & -> & Hm0).
  exists m0. split; [done|]. split; [done|]. simpl.
  destruct (_ =? _)%Z; [done|].
  destruct (find _ _) as [s|]; [|done]. by destruct (isGap s).
Qed.

Lemma regionFor_color (chunkStart duration : Q) (segment : Segment) (m : Marker) :
  regionFor chunkStart duration segment = Some m →
  marker_color m = if isGap segment then gapColor else defaultColor.
Proof.
  unfold regionFor.
  destruct (Qlt_le_dec (end_sec segment - chunkStart) 0); [done|].
  destruct (Qlt_le_dec duration (start_sec segment - chunkStart)); [done|].
  by intros [= <-].
Qed.

Lemma highlightRegion_regions {D : Type} (id : Z) (st : State D)
    (regions : list Marker) :
  marker_region <$> highlightRegion id st regions = marker_region <$> regions.
Proof.
  unfold highlightRegion. rewrite <- list_fmap_compose.
  by apply list_fmap_ext.
Qed.

Lemma createRegions_regions {D : Type} (st : State D) (chunk : Chunk) :
  currentChunk st = Some chunk →
  marker_region <$> createRegions st
  = marker_region
      <$> omap (regionFor (start_time chunk) (ws_duration st)) (segments st).
Proof.
  intros Hchunk. unfold createRegions. rewrite Hchunk.
  destruct (selectedSegmentId st) as [sel|]; [|done].
  destruct (falsyId (Some sel)); [done|]. apply highlightRegion_regions.
Qed.

(** X10. The regions drawn by [createRegions()].  Without a loaded
    chunk there is none.  With a chunk and a non-negative duration,
    every region comes from a segment of the array, carries its id as a
    string, lies inside [[0, duration]], and has its start before its
    end when the segment has.  Its colour is the selected, the gap or
    the default colour, never the deletion colour, also for a segment
    marked for deletion: with no selection (or the selection 0) it is
    the gap colour for a gap and the default colour otherwise; with a
    selection, the region whose id spells the selected id has the
    selected colour and no other has, and the others are coloured
    after the segment that [===] finds under the number the id spells
    (the default colour when there is none).  Every segment that
    overlaps the chunk gets a region. *)
Theorem createRegions_stay_inside_chunk {D : Type} (st : State D) :
  (currentChunk st = None → createRegions st = [])
  ∧ (∀ chunk,
       currentChunk st = Some chunk →
       (0 <= ws_duration st)%Q →
       (∀ m, m ∈ createRegions st →
          ∃ s, s ∈ segments st
               ∧ region_id (marker_region m) = IdStr (parseInt (segment_id s))
               ∧ (0 <= region_start (marker_region m) <= ws_duration st)%Q
               ∧ (0 <= region_end (marker_region m) <= ws_duration st)%Q
               ∧ ((start_sec s <= end_sec s)%Q →
                  (region_start (marker_region m)
                   <= region_end (marker_region m))%Q)
               ∧ marker_color m ≠ deletedColor
               ∧ (marker_color m = selectedColor ∨ marker_color m = gapColor
                  ∨ marker_color m = defaultColor)
               ∧ (falsyId (selectedSegmentId st) = true →
                  marker_color m
                  = if isGap s then gapColor else defaultColor)
               ∧ (∀ sel, selectedSegmentId st = Some sel → sel ≠ 0%Z →
                    (parseInt (segment_id s) = sel →
                     marker_color m = selectedColor)
                    ∧ (parseInt (segment_id s) ≠ sel →
                       marker_color m
                       = match find (λ x, strictEq (segment_id x)
                                            (IdNum (parseInt (segment_id s))))
                                 (segments st) with
                         | Some s' => if isGap s' then gapColor
                                      else defaultColor
                         | None => defaultColor
                         end)))
       ∧ (∀ s, s ∈ segments st →
            (0 <= end_sec s - start_time chunk)%Q →
            (start_sec s - start_time chunk <= ws_duration st)%Q →
            ∃ m, m ∈ createRegions st
                 ∧ region_id (marker_region m)
                   = IdStr (parseInt (segment_id s)))).
Proof.
  split.
  { intros H. unfold createRegions. by rewrite H. }
  intros chunk Hchunk Hdur. split.
  - intros m Hm.
    set (drawn := omap (regionFor (start_time chunk) (ws_duration st))
                    (segments st)).
    assert (∃ m0, m0 ∈ drawn ∧ marker_region m = marker_region m0
                  ∧ ((falsyId (selectedSegmentId st) = true ∧ m = m0)
                     ∨ (∃ sel, selectedSegmentId st = Some sel ∧ sel ≠ 0%Z
                               ∧ m ∈ highlightRegion sel st drawn
                               ∧ marker_color m
                                 = if (parseInt (region_id (marker_region m0))
                                       =? sel)%Z
                                   then selectedColor
                                   else match
                                       find (λ x, strictEq (segment_id x)
                                                    (IdNum (parseInt
                                                       (region_id
                                                          (marker_region m0)))))
                                         (segments st) with
                                     | Some s' => if isGap s' then gapColor
                                                  else defaultColor
                                     | None => defaultColor
                                     end)))
      as (m0 & Hm0 & Hreg & Hcases).
    { unfold createRegions in Hm. rewrite Hchunk in Hm. fold drawn in Hm.
      destruct (selectedSegmentId st) as [sel|] eqn:Hsel.
      - destruct (falsyId (Some sel)) eqn:Hfalsy.
        + exists m. split; [done|]. split; [done|]. by left.
        + destruct (highlightRegion_color _ _ _ _ Hm) as (m0 & H0 & H1 & H2).
          exists m0. split; [done|]. split; [done|]. right. exists sel.
          split; [done|]. split; [|done].
          intros ->. discriminate.
      - exists m. split; [done|]. split; [done|]. by left. }
    apply list_elem_of_omap in Hm0 as (s & Hs & Hfor).
    pose proof (regionFor_color _ _ _ _ Hfor) as Hcol0.
    apply regionFor_spec in Hfor as (H1 & H2 & Hr & _).
    assert (parseInt (region_id (marker_region m0)) = parseInt (segment_id s))
      as Hid by (by rewrite Hr).
    exists s. rewrite Hreg, Hr. simpl. split; [done|]. split; [done|].
    split; [minmax_cases; lra|]. split; [minmax_cases; lra|].
    split; [intros Hle; minmax_cases; lra|].
    destruct Hcases as [[Hfalsy ->] | (sel & Hsel & Hnz & _ & Hcol)].
    + rewrite Hcol0. split; [by destruct (isGap s)|].
      split; [destruct (isGap s); [by right; left|by right; right]|].
      split; [done|].
      intros sel Hsel Hnz. exfalso. rewrite Hsel in Hfalsy. simpl in Hfalsy.
      by apply Z.eqb_eq in Hfalsy.
    + rewrite Hid in Hcol. rewrite Hcol.
      split.
      { destruct (_ =? _)%Z; [done|].
        destruct (find _ _) as [s'|]; [|done]. by destruct (isGap s'). }
      split.
      { destruct (_ =? _)%Z; [by left|].
        destruct (find _ _) as [s'|]; [|by right; right].
        destruct (isGap s'); [by right; left|by right; right]. }
      split.
      { intros Hfalsy. exfalso. rewrite Hsel in Hfalsy. simpl in Hfalsy.
        by apply Z.eqb_eq in Hfalsy. }
      intros sel' Hsel' _. rewrite Hsel in Hsel'. injection Hsel' as <-.
      split; intros Hcmp.
      * by rewrite (proj2 (Z.eqb_eq _ _) Hcmp).
      * by rewrite (proj2 (Z.eqb_neq _ _) Hcmp).
  - intros s Hs H1 H2.
    destruct (regionFor_visible _ _ s H1 H2) as [m0 Hm0].
    assert (marker_region m0 ∈ marker_region <$> createRegions st) as Hin.
    { rewrite (createRegions_regions st chunk Hchunk).
      apply list_elem_of_fmap. exists m0. split; [done|].
      apply list_elem_of_omap. by exists s. }
    apply list_elem_of_fmap in Hin as (m & Hreg & Hm).
    exists m. split; [done|]. rewrite <- Hreg.
    by apply regionFor_spec in Hm0 as (_ & _ & -> & _).
Qed.

Lemma createRegions_stay_inside_chunk_witness :
  ∃ m, m ∈ createRegions (sampleState (D := Z) (Some 42%Z) [] [])
       ∧ region_id (marker_region m) = IdStr 43.
Proof.
  destruct (proj2 (proj2 (createRegions_stay_inside_chunk
              (sampleState (D := Z) (Some 42%Z) [] [])) sampleChunk eq_refl
              ltac:(by vm_compute))
              (sampleSegment 43 5 6 "three")) as (m & Hm & Hid).
  - apply list_elem_of_further, list_elem_of_further, list_elem_of_here.
  - by vm_compute.
  - by vm_compute.
  - exists m. split; [exact Hm|exact Hid].
Defined.

(** X11. Committing a region exactly as [createRegions()] drew it clips
    the segment to the chunk.  If [region-updated] fires for the region
    of a segment without the region having moved, the segment gets
    [max(chunkStart, start_sec)] and [min(chunkStart + duration,
    end_sec)]: a segment that reaches beyond the chunk loses the part
    outside it, and a segment inside the chunk keeps its times. *)
Theorem unmoved_region_commit_clips_to_chunk {D : Type}
    (net : list Request -> Request -> bool) (st : State D) (i : nat)
    (segment : Segment) (chunk : Chunk) (m : Marker) :
  currentChunk st = Some chunk →
  findIndex (λ s, strictEq (segment_id s)
                    (IdNum (parseInt (segment_id segment)))) (segments st)
    = Some i →
  segments st !! i = Some segment →
  regionFor (start_time chunk) (ws_duration st) segment = Some m →
  ∃ st1 segment',
    handleRegionUpdate net (marker_region m) st = Some st1
    ∧ segments st1 !! i = Some segment'
    ∧ (start_sec segment' == Qmax (start_time chunk) (start_sec segment))%Q
    ∧ (end_sec segment'
       == Qmin (start_time chunk + ws_duration st) (end_sec segment))%Q
    ∧ ((start_time chunk <= start_sec segment)%Q →
       (end_sec segment <= start_time chunk + ws_duration st)%Q →
       (start_sec segment' == start_sec segment)%Q
       ∧ (end_sec segment' == end_sec segment)%Q).
Proof.
  intros Hchunk Hi Hseg Hm.
  apply regionFor_spec in Hm as (_ & _ & Hr & _).
  unfold handleRegionUpdate. rewrite Hr. simpl. rewrite Hi, Hseg, Hchunk.
  do 2 eexists. split; [reflexivity|].
  match goal with
  | |- context [saveSegmentUpdate net ?id ?u ?s] =>
      destruct (saveSegmentUpdate_store net id u s) as (-> & _)
  end.
  simpl. rewrite list_lookup_alter_eq, Hseg. simpl.
  split; [reflexivity|]. simpl.
  split; [minmax_cases; lra|]. split; [minmax_cases; lra|].
  intros H1 H2. split; minmax_cases; lra.
Qed.

Lemma unmoved_region_commit_clips_to_chunk_witness :
  let st : State Z :=
    set_segments [sampleSegment 7 (-2) 3 "early"; sampleSegment 8 98 104 "late"]
      (sampleState None [] []) in
  ∃ st1 segment',
    handleRegionUpdate alwaysOk
      (mkRegion (IdStr 8) (Qmax 0 (98 - 0)) (Qmin 100 (104 - 0))) st = Some st1
    ∧ segments st1 !! 1%nat = Some segment'
    ∧ (end_sec segment' == 100)%Q.
Proof.
  intros st.
  destruct (unmoved_region_commit_clips_to_chunk alwaysOk st 1
              (sampleSegment 8 98 104 "late") sampleChunk
              (mkMarker (mkRegion (IdStr 8) (Qmax 0 (98 - 0))
                           (Qmin 100 (104 - 0))) defaultColor)
              eq_refl eq_refl eq_refl eq_refl)
    as (st1 & segment' & H1 & H2 & _ & H4 & _).
  exists st1, segment'. split; [exact H1|]. split; [exact H2|].
  rewrite H4. by vm_compute.
Defined.

(** ** The time read-out *)

Lemma Qfloor_between (x : Q) (n : Z) :
  (inject_Z n <= x)%Q → (x < inject_Z (n + 1))%Q → Qfloor x = n.
Proof.
  intros H1 H2.
  pose proof (Qfloor_le x) as F1. pose proof (Qlt_floor x) as F2.
  assert (inject_Z (Qfloor x) < inject_Z (n + 1))%Q as G1 by lra.
  assert (inject_Z n < inject_Z (Qfloor x + 1))%Q as G2 by lra.
  rewrite <- Zlt_Qlt in G1, G2. lia.
Qed.

Lemma toFixed2_rounds_up_to_60 (r : Q) :
  (11999 # 200 <= r)%Q → (r < 60)%Q → toFixed2 r = "60.00".
Proof.
  intros H1 H2. unfold toFixed2.
  assert (Qabs r == r)%Q as Habs by (apply Qabs_pos; lra).
  rewrite (Qfloor_between _ 6000).
  - assert ((r ?= 0)%Q = Gt) as -> by (apply Qgt_alt; lra). by vm_compute.
  - rewrite Habs. change (inject_Z 6000) with (6000 # 1). lra.
  - rewrite Habs. change (inject_Z (6000 + 1)) with (6001 # 1). lra.
Qed.

(** X12. [formatTime] does not carry rounded seconds into the minutes.
    For a time within the last 5 ms of minute [k], that is
    [60 k + 59.995 <= seconds < 60 (k + 1)], the seconds are rounded to
    two decimals on their own and the read-out is [k] (padded to two
    digits) followed by [:60.00]. *)
Theorem formatTime_shows_sixty_seconds (seconds : Q) (k : Z) :
  (0 <= k)%Z →
  (inject_Z k * 60 + (11999 # 200) <= seconds)%Q →
  (seconds < inject_Z (k + 1) * 60)%Q →
  formatTime seconds = padStart 2 (pretty k) +:+ ":60.00".
Proof.
  intros Hk H1 H2. rewrite inject_Z_plus in H2.
  change (inject_Z 1) with 1%Q in H2.
  assert (0 <= inject_Z k)%Q as Hk'.
  { change 0%Q with (inject_Z 0). by rewrite <- Zle_Qle. }
  assert (seconds == seconds / 60 * 60)%Q as E by field.
  assert (Qfloor (seconds / 60) = k) as Hfloor.
  { apply Qfloor_between.
    - lra.
    - rewrite inject_Z_plus. change (inject_Z 1) with 1%Q. lra. }
  unfold formatTime. rewrite Hfloor.
  assert (toFixed2 (rem60 seconds) = "60.00") as ->; [|done].
  unfold rem60. destruct (Qlt_le_dec (seconds / 60) 0) as [Hneg|_]; [lra|].
  rewrite Hfloor. apply toFixed2_rounds_up_to_60; lra.
Qed.

Lemma formatTime_shows_sixty_seconds_witness :
  formatTime (119999 # 1000) = "01:60.00".
Proof.
  rewrite (formatTime_shows_sixty_seconds (119999 # 1000) 1);
    [reflexivity|lia|by vm_compute|by vm_compute].
Defined.

(** ** Chunks *)

Section Chunk_facts.
Context {D : Type}.
Variable getSegments : Z -> option (list Segment).
Variable loadAudio : Z -> option Q.
Implicit Type s : Session D.

Lemma loadChunk_loaded chunkId s chunk segs duration :
  find (λ c, (chunk_id c =? chunkId)%Z) (chunks s) = Some chunk →
  getSegments chunkId = Some segs →
  loadAudio chunkId = Some duration →
  let a :=
    set_ws_duration duration
      (set_segments segs
         (set_currentChunk (Some chunk)
            (setStatus "Loading..." "saving" (app s)))) in
  loadChunk getSegments loadAudio chunkId s
  = (mkSession (setStatus "" "" a) (chunks s) chunkId (chunkId <=? 1)%Z
       (Z.of_nat (length (chunks s)) <=? chunkId)%Z (createRegions a), true).
Proof.
  intros Hc Hs Ha. unfold loadChunk. by rewrite Hc, Hs, Ha.
Qed.

Lemma loadChunk_id chunkId s :
  let s' := (loadChunk getSegments loadAudio chunkId s).1 in
  chunks s' = chunks s
  ∧ (currentChunkId s' = currentChunkId s
     ∨ currentChunkId s' = chunkId
       ∧ is_Some (find (λ c, (chunk_id c =? chunkId)%Z) (chunks s))).
Proof.
  unfold loadChunk.
  destruct (find _ (chunks s)) as [chunk|]; [|by split; [|left]].
  destruct (getSegments chunkId); [|by split; [|right]].
  destruct (loadAudio chunkId); by split; [|right].
Qed.
End Chunk_facts.

(** X13. Loading a chunk id that is not in [state.chunks].
    [loadChunk] has already stored the missing chunk in
    [state.currentChunk] when it notices: it returns with the status
    "Chunk not found", the segments, the history and the regions of the
    previous chunk are still there, and from then on committing a drag
    of any of those regions throws, because
    [state.currentChunk.start_time] no longer exists. *)
Theorem loadChunk_of_unknown_chunk_unloads_current {D : Type}
    (getSegments : Z -> option (list Segment)) (loadAudio : Z -> option Q)
    (chunkId : Z) (s : Session D) :
  find (λ c, (chunk_id c =? chunkId)%Z) (chunks s) = None →
  let r := loadChunk getSegments loadAudio chunkId s in
  r.2 = true
  ∧ currentChunk (app r.1) = None
  ∧ status (ui (app r.1)) = ("Chunk not found", "error")
  ∧ segments (app r.1) = segments (app s)
  ∧ undoStack (app r.1) = undoStack (app s)
  ∧ deletedSegments (app r.1) = deletedSegments (app s)
  ∧ currentChunkId r.1 = currentChunkId s
  ∧ overlay r.1 = overlay s
  ∧ (∀ net region i,
       findIndex (λ x, strictEq (segment_id x)
                         (IdNum (parseInt (region_id region))))
         (segments (app s)) = Some i →
       handleRegionUpdate net region (app r.1) = None).
Proof.
  intros Hnone r. subst r. unfold loadChunk. rewrite Hnone. simpl.
  repeat split; try done.
  intros net region i Hi. unfold handleRegionUpdate. simpl. rewrite Hi.
  by destruct (segments (app s) !! i).
Qed.

Lemma loadChunk_of_unknown_chunk_unloads_current_witness :
  let s : Session Z :=
    mkSession (sampleState None [] []) [sampleChunk] 1 true true [] in
  handleRegionUpdate alwaysOk (mkRegion (IdStr 42) 1 3)
    (app (loadChunk (λ _, Some []) (λ _, Some 100%Q) 2 s).1) = None.
Proof.
  intros s.
  exact (proj2 (proj2 (proj2 (proj2 (proj2 (proj2 (proj2 (proj2
           (loadChunk_of_unknown_chunk_unloads_current (λ _, Some [])
              (λ _, Some 100%Q) 2 s eq_refl))))))))
           alwaysOk (mkRegion (IdStr 42) 1 3) 1%nat eq_refl).
Defined.

(** X14. A chunk switch does not reset the session.  After
    [loadChunk] has replaced the segments, the undo stack, the pending
    deletions, the selection and the unsaved flag are those of the
    previous chunk.  So [saveAll()] in the new chunk still sends the
    deletions that were pending, and in the immediate-delete build
    [undo()] of a delete made in the previous chunk inserts that
    chunk's segment into the array of the new one. *)
Theorem loadChunk_keeps_history_of_previous_chunk
    (getSegments : Z -> option (list Segment)) (loadAudio : Z -> option Q)
    (net : list Request -> Request -> bool)
    (chunkId : Z) (s : Session (Segment * nat)) (chunk : Chunk)
    (segs : list Segment) (duration : Q) :
  find (λ c, (chunk_id c =? chunkId)%Z) (chunks s) = Some chunk →
  getSegments chunkId = Some segs →
  loadAudio chunkId = Some duration →
  let r := loadChunk getSegments loadAudio chunkId s in
  let a := app r.1 in
  r.2 = true
  ∧ segments a = segs
  ∧ currentChunk a = Some chunk
  ∧ undoStack a = undoStack (app s)
  ∧ deletedSegments a = deletedSegments (app s)
  ∧ selectedSegmentId a = selectedSegmentId (app s)
  ∧ hasUnsavedChanges a = hasUnsavedChanges (app s)
  ∧ overlay r.1 = createRegions a
  ∧ ((∀ log q, net log q = true) →
     requests (saveAll net a)
     = requests (app s) ++ (DELETE <$> deletedSegments (app s)))
  ∧ (∀ rest old i,
       undoStack (app s) = rest ++ [DeleteEntry (old, i)] →
       segments (HardDelete.undo net a) = spliceIn i old segs
       ∧ old ∈ segments (HardDelete.undo net a)).
Proof.
  intros Hc Hs Ha r a. subst a r.
  rewrite (loadChunk_loaded getSegments loadAudio chunkId s chunk segs duration
             Hc Hs Ha).
  cbn [fst snd app].
  set (a := setStatus "" "" _).
  assert (segments a = segs ∧ undoStack a = undoStack (app s)
          ∧ deletedSegments a = deletedSegments (app s)
          ∧ requests a = requests (app s)) as (E1 & E2 & E3 & E4) by done.
  repeat split; try done.
  - intros Hok.
    destruct (deletedSegments a) as [|id0 ids] eqn:Hids.
    + rewrite (saveAll_empty net a Hids). simpl.
      rewrite <- E3. by rewrite app_nil_r.
    + assert (deletedSegments a ≠ []) as Hne by (by rewrite Hids).
      destruct (saveAll_resolved net a Hne) as (-> & _);
        [intros k id _; apply Hok|]. by rewrite E4, Hids, E3.
  - destruct (hard_undo_delete net a rest old i) as (-> & _);
      [by rewrite E2|by rewrite E1].
  - destruct (hard_undo_delete net a rest old i) as (-> & _);
      [by rewrite E2|].
    unfold spliceIn. apply elem_of_app. right. apply list_elem_of_here.
Qed.

Lemma loadChunk_keeps_history_of_previous_chunk_witness :
  let old := sampleSegment 42 (3 # 2) 2 "two" in
  let s : Session (Segment * nat) :=
    mkSession (sampleState None [DeleteEntry (old, 1%nat)] [42%Z])
      [sampleChunk; mkChunk 2 100 "chunks/chunk_002.wav"] 1 true false [] in
  let fresh := [sampleSegment 90 101 102 "ninety"] in
  let a := app (loadChunk (λ _, Some fresh) (λ _, Some 100%Q) 2 s).1 in
  segments (HardDelete.undo alwaysOk a) = fresh ++ [old]
  ∧ requests (saveAll alwaysOk a) = [DELETE 42].
Proof.
  intros old s fresh a.
  destruct (loadChunk_keeps_history_of_previous_chunk (λ _, Some fresh)
              (λ _, Some 100%Q) alwaysOk 2 s
              (mkChunk 2 100 "chunks/chunk_002.wav") fresh 100 eq_refl eq_refl
              eq_refl)
    as (_ & _ & _ & _ & _ & _ & _ & _ & H9 & H10).
  split.
  - exact (proj1 (H10 [] old 1%nat eq_refl)).
  - exact (H9 (λ _ _, eq_refl)).
Defined.

(** X15. A rejected fetch leaves the session half switched.  When
    [api.getSegments] rejects, [loadChunk] ends with the exception
    after it has stored the new chunk and its id: the segments are
    still those of the previous chunk and the status still reads
    "Loading...".  A region update committed in that state adds the
    start time of the new chunk to the region bounds. *)
Theorem loadChunk_rejected_fetch_leaves_old_segments {D : Type}
    (getSegments : Z -> option (list Segment)) (loadAudio : Z -> option Q)
    (chunkId : Z) (s : Session D) (chunk : Chunk) :
  find (λ c, (chunk_id c =? chunkId)%Z) (chunks s) = Some chunk →
  getSegments chunkId = None →
  let r := loadChunk getSegments loadAudio chunkId s in
  r.2 = false
  ∧ currentChunk (app r.1) = Some chunk
  ∧ currentChunkId r.1 = chunkId
  ∧ segments (app r.1) = segments (app s)
  ∧ status (ui (app r.1)) = ("Loading...", "saving")
  ∧ (∀ net region i segment,
       findIndex (λ x, strictEq (segment_id x)
                         (IdNum (parseInt (region_id region))))
         (segments (app s)) = Some i →
       segments (app s) !! i = Some segment →
       ∃ st1,
         handleRegionUpdate net region (app r.1) = Some st1
         ∧ segments st1 !! i
           = Some (set_times (region_start region + start_time chunk)
                     (region_end region + start_time chunk) segment)).
Proof.
  intros Hc Hs r. subst r. unfold loadChunk. rewrite Hc, Hs. simpl.
  repeat split; try done.
  intros net region i segment Hi Hseg.
  unfold handleRegionUpdate. simpl. rewrite Hi, Hseg.
  eexists. split; [reflexivity|].
  match goal with
  | |- context [saveSegmentUpdate net ?id ?u ?st] =>
      destruct (saveSegmentUpdate_store net id u st) as (-> & _)
  end.
  simpl. by rewrite list_lookup_alter_eq, Hseg.
Qed.

Lemma loadChunk_rejected_fetch_leaves_old_segments_witness :
  let s : Session Z :=
    mkSession (sampleState None [] [])
      [sampleChunk; mkChunk 2 100 "chunks/chunk_002.wav"] 1 true false [] in
  let r := loadChunk (λ _, None) (λ _, Some 100%Q) 2 s in
  r.2 = false ∧ segments (app r.1) = sampleSegments
  ∧ currentChunkId r.1 = 2%Z.
Proof.
  intros s r.
  destruct (loadChunk_rejected_fetch_leaves_old_segments (λ _, None)
              (λ _, Some 100%Q) 2 s (mkChunk 2 100 "chunks/chunk_002.wav")
              eq_refl eq_refl) as (H1 & _ & H3 & H4 & _).
  split; [exact H1|]. split; [exact H4|exact H3].
Defined.

(** X16. The chunk buttons never leave the list of chunks.  If
    [state.currentChunkId] is between 1 and the number of chunks, it
    still is after the previous or the next button, whatever the server
    answers; the previous button does nothing on chunk 1 and the next
    button nothing on the last chunk. *)
Theorem chunk_buttons_stay_in_range {D : Type}
    (getSegments : Z -> option (list Segment)) (loadAudio : Z -> option Q)
    (s : Session D) :
  (1 <= currentChunkId s <= Z.of_nat (length (chunks s)))%Z →
  let p := (prevChunk getSegments loadAudio s).1 in
  let n := (nextChunk getSegments loadAudio s).1 in
  (1 <= currentChunkId p <= Z.of_nat (length (chunks p)))%Z
  ∧ (1 <= currentChunkId n <= Z.of_nat (length (chunks n)))%Z
  ∧ (currentChunkId s = 1%Z → prevChunk getSegments loadAudio s = (s, true))
  ∧ (currentChunkId s = Z.of_nat (length (chunks s)) →
     nextChunk getSegments loadAudio s = (s, true)).
Proof.
  intros Hrange p n. subst p n. unfold prevChunk, nextChunk.
  split; [|split; [|split]].
  - destruct (Z.ltb_spec 1 (currentChunkId s)); [|done].
    destruct (loadChunk_id getSegments loadAudio (currentChunkId s - 1) s)
      as (-> & [-> | [-> _]]); lia.
  - destruct (Z.ltb_spec (currentChunkId s) (Z.of_nat (length (chunks s))));
      [|done].
    destruct (loadChunk_id getSegments loadAudio (currentChunkId s + 1) s)
      as (-> & [-> | [-> _]]); lia.
  - intros ->. done.
  - intros ->. by rewrite Z.ltb_irrefl.
Qed.

Lemma chunk_buttons_stay_in_range_witness :
  let s : Session Z :=
    mkSession (sampleState None [] [])
      [sampleChunk; mkChunk 2 100 "chunks/chunk_002.wav"] 2 false true [] in
  nextChunk (λ _, None) (λ _, None) s = (s, true)
  ∧ currentChunkId (prevChunk (λ _, None) (λ _, None) s).1 = 1%Z.
Proof.
  intros s.
  destruct (chunk_buttons_stay_in_range (λ _, None) (λ _, None) s
              ltac:(by vm_compute)) as (_ & _ & _ & H4).
  split; [exact (H4 eq_refl)|reflexivity].
Defined.

(** ** Deletions that can no longer be undone *)

(** X17. Undo of a soft delete whose segment is not in the array (for
    instance after a chunk switch).  The entry is dropped and nothing
    else changes: the id stays in the pending list, so the deletion can
    no longer be undone and is still sent by the next [saveAll()]. *)
Theorem soft_undo_of_absent_delete_stays_pending
    (net : list Request -> Request -> bool) (st : State Z)
    (rest : list (UndoEntry Z)) (segmentId : Z) :
  undoStack st = rest ++ [DeleteEntry segmentId] →
  (∀ s, s ∈ segments st → looseEq (segment_id s) (IdNum segmentId) = false) →
  let st' := SoftDelete.undo net st in
  st' = refreshUndoBtn (set_undoStack rest st)
  ∧ segments st' = segments st
  ∧ deletedSegments st' = deletedSegments st
  ∧ (segmentId ∈ deletedSegments st →
     (∀ log q, net log q = true) →
     DELETE segmentId ∈ requests (saveAll net st')).
Proof.
  intros Hstack Habsent st'. subst st'.
  rewrite (soft_undo_delete_missing net st rest segmentId Hstack)
    by (by apply findIndex_absent).
  repeat split; try done. intros Hin Hok.
  set (st' := refreshUndoBtn (set_undoStack rest st)).
  assert (deletedSegments st' = deletedSegments st) as Hsame by done.
  assert (deletedSegments st' ≠ []) as Hne.
  { rewrite Hsame. intros Hnil. rewrite Hnil in Hin.
    by apply elem_of_nil in Hin. }
  destruct (saveAll_resolved net st' Hne) as (-> & _);
    [intros k id _; apply Hok|].
  apply elem_of_app. right. apply list_elem_of_fmap.
  exists segmentId. by rewrite Hsame.
Qed.

Lemma soft_undo_of_absent_delete_stays_pending_witness :
  let st : State Z := sampleState None [DeleteEntry 77%Z] [77%Z] in
  deletedSegments (SoftDelete.undo alwaysOk st) = [77%Z]
  ∧ DELETE 77 ∈ requests (saveAll alwaysOk (SoftDelete.undo alwaysOk st)).
Proof.
  intros st.
  destruct (soft_undo_of_absent_delete_stays_pending alwaysOk st [] 77%Z
              eq_refl) as (_ & _ & H3 & H4).
  - intros s Hs. simpl in Hs. unfold sampleSegments in Hs.
    repeat (apply elem_of_cons in Hs as [-> | Hs]; [reflexivity|]).
    by apply elem_of_nil in Hs.
  - split; [exact H3|]. apply H4; [apply list_elem_of_here|].
    intros log q. reflexivity.
Defined.

Lemma pop_Some {A : Type} (l rest : list A) (x : A) :
  pop l = Some (rest, x) → l = rest ++ [x].
Proof.
  unfold pop. destruct (reverse l) as [|y r] eqn:Hr; [done|].
  intros [= <- <-]. rewrite <- (reverse_involutive l), Hr.
  by rewrite reverse_cons.
Qed.

Lemma restoreFields_marked (e : Edit) (s : Segment) :
  markedForDeletion (restoreFields e s) = markedForDeletion s.
Proof. by destruct e. Qed.

Lemma soft_undo_without_delete_entries net (st : State Z) :
  (∀ d, DeleteEntry d ∉ undoStack st) →
  let st' := SoftDelete.undo net st in
  markedForDeletion <$> segments st' = markedForDeletion <$> segments st
  ∧ deletedSegments st' = deletedSegments st
  ∧ (∀ d, DeleteEntry d ∉ undoStack st').
Proof.
  intros Hnone st'. subst st'.
  destruct (pop (undoStack st)) as [[rest lastChange]|] eqn:Hpop.
  2:{ unfold SoftDelete.undo. by rewrite Hpop. }
  apply pop_Some in Hpop.
  assert (∀ d, DeleteEntry d ∉ rest) as Hrest.
  { intros d Hd. apply (Hnone d). rewrite Hpop. apply elem_of_app. by left. }
  destruct lastChange as [e|d].
  2:{ exfalso. apply (Hnone d). rewrite Hpop. apply elem_of_app. right.
      apply list_elem_of_here. }
  change (SoftDelete.undo net st) with (undo_of Soft net st).
  rewrite (undo_of_edit Soft net st rest e Hpop).
  destruct (findIndex (λ s, strictEq (segment_id s) (edit_segmentId e))
              (segments st)) as [i|] eqn:Hi.
  - destruct (undoEdit_found net (selectSegment_of Soft) e
                (set_undoStack rest st) i (selectSegment_of_keeps Soft) Hi)
      as (F1 & F2 & F3 & _).
    cbn [payload] in *. rewrite F1, F2, F3.
    split; [|done]. cbn [segments set_undoStack].
    apply fmap_alter_same, restoreFields_marked.
  - cbn [payload] in *. by rewrite undoEdit_missing.
Qed.

(** X18. A saved deletion is final on the client too.  After a
    [saveAll()] that sent the pending deletions, no number of [undo()]
    calls changes the deletion marks: the undo stack has lost its
    delete entries, and undoing edits leaves [markedForDeletion]
    alone.  The marked segments stay in the array, marked, until
    [finalizeDeletes()]. *)
Theorem marks_are_permanent_after_saveAll
    (net : list Request -> Request -> bool) (st : State Z) (n : nat) :
  deletedSegments st ≠ [] →
  (∀ k, resolves net (requests st) (deletedSegments st) k) →
  let st' := undoTimes Soft net n (saveAll net st) in
  markedForDeletion <$> segments st' = markedForDeletion <$> segments st
  ∧ deletedSegments st' = []
  ∧ length (segments st') = length (segments st).
Proof.
  intros Hne Hall st'. subst st'.
  destruct (saveAll_resolved net st Hne Hall) as (_ & Hdel & Hstack & _).
  assert (∀ d, DeleteEntry d ∉ undoStack (saveAll net st)) as Hnone.
  { intros d. rewrite Hstack. apply notDelete_after_filter. }
  rewrite <- (saveAll_segments net st).
  revert Hdel Hnone. generalize (saveAll net st). clear. intros st Hdel.
  assert (∀ X : State Z,
            (∀ d, DeleteEntry d ∉ undoStack X) →
            markedForDeletion <$> segments (undoTimes Soft net n X)
            = markedForDeletion <$> segments X
            ∧ deletedSegments (undoTimes Soft net n X) = deletedSegments X
            ∧ (∀ d, DeleteEntry d ∉ undoStack (undoTimes Soft net n X)))
    as Hiter.
  { induction n as [|n IH]; intros X HX; [done|].
    destruct (IH X HX) as (I1 & I2 & I3).
    destruct (soft_undo_without_delete_entries net _ I3) as (S1 & S2 & S3).
    unfold undoTimes in *. simpl in *.
    split; [by rewrite S1|]. split; [by rewrite S2|done]. }
  intros Hnone. destruct (Hiter st Hnone) as (H1 & H2 & _).
  split; [done|]. split; [by rewrite H2|].
  by rewrite <- (length_fmap markedForDeletion), H1, length_fmap.
Qed.

Lemma marks_are_permanent_after_saveAll_witness :
  let st : State Z :=
    set_segments (alter (set_marked true) 1 sampleSegments)
      (sampleState None
         [EditEntry (EditText (IdNum 41) "eins"); DeleteEntry 42%Z] [42%Z]) in
  markedForDeletion
    <$> segments (undoTimes Soft alwaysOk 3 (saveAll alwaysOk st))
  = [false; true; false].
Proof.
  intros st.
  destruct (marks_are_permanent_after_saveAll alwaysOk st 3
              ltac:(discriminate)) as (H1 & _);
    [intros k id _; reflexivity|exact H1].
Defined.

(** ** Selection of absent and of deletable segments *)

Lemma find_None_findIndex {A : Type} (p : A -> bool) (l : list A) :
  find p l = None → findIndex p l = None.
Proof.
  unfold find. destruct (findIndex p l) as [i|] eqn:Hi; [|done].
  destruct (findIndex_lookup _ _ _ Hi) as (x & Hx & _). simpl. by rewrite Hx.
Qed.

Lemma find_Some_findIndex {A : Type} (p : A -> bool) (l : list A) (x : A) :
  find p l = Some x → ∃ i, findIndex p l = Some i ∧ l !! i = Some x.
Proof.
  unfold find. destruct (findIndex p l) as [i|]; [|done].
  simpl. intros H. by exists i.
Qed.

Lemma soft_selectSegment_button x (st : State Z) :
  deleteBtn_disabled (ui (SoftDelete.selectSegment x st))
  = match find (λ s, looseEq (segment_id s) (IdNum (parseInt x)))
            (segments st) with
    | Some s => markedForDeletion s
    | None => true
    end.
Proof.
  unfold SoftDelete.selectSegment.
  match goal with
  | |- context [zoomToSegment ?i ?s] =>
      destruct (zoomToSegment_store i s) as (_ & _ & _ & _ & _ & _ & ->)
  end.
  rewrite normalizeId_parseInt. simpl. by destruct (find _ _).
Qed.

Lemma hard_selectSegment_button x (st : State (Segment * nat)) :
  deleteBtn_disabled (ui (HardDelete.selectSegment x st))
  = match find (λ s, strictEq (segment_id s) (IdNum (parseInt x)))
            (segments st) with
    | Some s => false
    | None => true
    end.
Proof.
  unfold HardDelete.selectSegment.
  destruct (zoomToSegment_store (normalizeId x)
              (set_selectedSegmentId (Some (normalizeId x)) st))
    as (-> & _).
  rewrite normalizeId_parseInt. simpl. by destruct (find _ _).
Qed.

(** X19. The delete button tells whether delete will act.  Right after
    [selectSegment] of a non-zero id, in both builds: when the delete
    button is disabled, [deleteSelectedSegment()] changes nothing; when
    it is enabled, [deleteSelectedSegment()] pushes one undo entry and
    adds the id to the pending deletions.  After [selectSegment] of the
    id 0, [deleteSelectedSegment()] changes nothing whatever the
    button shows, because [0] is falsy in its guard. *)
Theorem delete_button_tells_whether_delete_acts
    (b : Build) (x : JsId) (st : State (payload b)) :
  let st1 := selectSegment_of b x st in
  let st2 := deleteSelectedSegment_of b st1 in
  (parseInt x = 0%Z → st2 = st1)
  ∧ (parseInt x ≠ 0%Z →
     (deleteBtn_disabled (ui st1) = true → st2 = st1)
     ∧ (deleteBtn_disabled (ui st1) = false →
        (∃ e, undoStack st2 = undoStack st1 ++ [e])
        ∧ deletedSegments st2 = deletedSegments st1 ++ [parseInt x]
        ∧ hasUnsavedChanges st2 = true)).
Proof.
  intros st1 st2. subst st2.
  assert (selectedSegmentId st1 = Some (parseInt x)) as Hsel
    by apply selectSegment_of_selected.
  assert (segments st1 = segments st) as Hsegs
    by apply (selectSegment_of_keeps b x st).
  split.
  - intros H0. destruct b;
      cbn [deleteSelectedSegment_of selectSegment_of payload] in *.
    + unfold SoftDelete.deleteSelectedSegment. rewrite Hsel, H0. done.
    + unfold HardDelete.deleteSelectedSegment. rewrite Hsel, H0. done.
  - intros Hnz.
    assert (falsyId (Some (parseInt x)) = false) as Hfalsy.
    { unfold falsyId. by apply Z.eqb_neq. }
    destruct b;
      cbn [deleteSelectedSegment_of selectSegment_of payload] in *.
    + subst st1. rewrite soft_selectSegment_button.
      set (st1 := SoftDelete.selectSegment x st) in *.
      destruct (find _ (segments st)) as [s|] eqn:Hfind.
      * apply find_Some_findIndex in Hfind as (i & Hi & Hs).
        rewrite <- Hsegs in Hi, Hs. split.
        { intros Hm. unfold SoftDelete.deleteSelectedSegment.
          by rewrite Hsel, Hfalsy, Hi, Hs, Hm. }
        intros Hm.
        destruct (soft_delete_marks st1 (parseInt x) i s Hsel Hfalsy Hi Hs Hm)
          as (_ & E2 & E3 & E4 & _).
        split; [by eexists|done].
      * apply find_None_findIndex in Hfind. rewrite <- Hsegs in Hfind.
        split; [|done]. intros _.
        unfold SoftDelete.deleteSelectedSegment.
        by rewrite Hsel, Hfalsy, Hfind.
    + subst st1. rewrite hard_selectSegment_button.
      set (st1 := HardDelete.selectSegment x st) in *.
      destruct (find _ (segments st)) as [s|] eqn:Hfind.
      * apply find_Some_findIndex in Hfind as (i & Hi & Hs).
        rewrite <- Hsegs in Hi, Hs. split; [done|]. intros _.
        destruct (hard_delete_removes st1 (parseInt x) i s Hsel Hfalsy Hi Hs)
          as (_ & E2 & E3 & _).
        split; [by eexists|]. split; [done|].
        unfold HardDelete.deleteSelectedSegment.
        rewrite Hsel, Hfalsy, Hi, Hs.
        repeat match goal with
        | |- context [if ?c then _ else _] => destruct c
        | |- context [match ?o with Some _ => _ | None => _ end] => destruct o
        | |- context [HardDelete.selectSegment ?y ?s] =>
            destruct (hard_selectSegment_keeps y s) as (_ & _ & _ & -> & _)
        end; done.
      * apply find_None_findIndex in Hfind. rewrite <- Hsegs in Hfind.
        split; [|done]. intros _.
        unfold HardDelete.deleteSelectedSegment.
        by rewrite Hsel, Hfalsy, Hfind.
Qed.

Lemma delete_button_tells_whether_delete_acts_witness :
  let zero : State (payload Hard) :=
    set_segments [sampleSegment 0 0 1 "zero"] (sampleState None [] []) in
  deleteSelectedSegment_of Hard (selectSegment_of Hard (IdNum 0) zero)
  = selectSegment_of Hard (IdNum 0) zero
  ∧ deletedSegments
      (deleteSelectedSegment_of Soft
         (selectSegment_of Soft (IdStr 42) (sampleState None [] [])))
    = [42%Z].
Proof.
  intros zero. split.
  - exact (proj1 (delete_button_tells_whether_delete_acts Hard (IdNum 0) zero)
             eq_refl).
  - destruct (proj2 (delete_button_tells_whether_delete_acts Soft (IdStr 42)
                       (sampleState None [] [])) ltac:(discriminate))
      as (_ & H).
    exact (proj1 (proj2 (H ltac:(by vm_compute)))).
Defined.

(** X20. Selecting an id that no segment has, in both builds.  The
    selection is set to that id all the same, the delete button is
    disabled, and the read-out, the waveform view and the store are
    left alone.  From there the left arrow does nothing and the right
    arrow selects the first segment of the array. *)
Theorem selecting_an_absent_id
    (b : Build) (x : JsId) (st : State (payload b)) :
  (∀ s, s ∈ segments st → parseInt (segment_id s) ≠ parseInt x) →
  let st1 := selectSegment_of b x st in
  selectedSegmentId st1 = Some (parseInt x)
  ∧ deleteBtn_disabled (ui st1) = true
  ∧ selectedInfo (ui st1) = selectedInfo (ui st)
  ∧ ws_view st1 = ws_view st
  ∧ segments st1 = segments st
  ∧ navigateSegment b (-1) st1 = st1
  ∧ (∀ first, segments st !! 0%nat = Some first →
              selectedSegmentId (navigateSegment b 1 st1)
              = Some (parseInt (segment_id first))).
Proof.
  intros Habsent st1.
  assert (findIndex (λ s, looseEq (segment_id s) (IdNum (parseInt x)))
            (segments st) = None) as Hloose.
  { apply findIndex_absent. intros s Hs. unfold looseEq. simpl.
    apply Z.eqb_neq. by apply Habsent. }
  assert (findIndex (λ s, strictEq (segment_id s) (IdNum (parseInt x)))
            (segments st) = None) as Hstrict.
  { apply findIndex_absent. intros s Hs.
    destruct (strictEq (segment_id s) (IdNum (parseInt x))) eqn:E; [|done].
    apply strictEq_num in E. exfalso. apply (Habsent s Hs). by rewrite E. }
  assert (selectedSegmentId st1 = Some (parseInt x)) as Hsel
    by apply selectSegment_of_selected.
  assert (segments st1 = segments st) as Hsegs
    by apply (selectSegment_of_keeps b x st).
  assert (deleteBtn_disabled (ui st1) = true
          ∧ selectedInfo (ui st1) = selectedInfo (ui st)
          ∧ ws_view st1 = ws_view st) as (H2 & H3 & H4).
  { assert (∀ p, findIndex p (segments st) = None → find p (segments st) = None)
      as Hfind by (intros p Hp; unfold find; by rewrite Hp).
    subst st1. destruct b; cbn [selectSegment_of payload] in *.
    - unfold SoftDelete.selectSegment. rewrite normalizeId_parseInt.
      cbn [segments set_selectedSegmentId]. rewrite (Hfind _ Hloose).
      unfold zoomToSegment. cbn [segments set_ui set_selectedSegmentId].
      rewrite (Hfind _ Hstrict). by simpl.
    - unfold HardDelete.selectSegment. rewrite normalizeId_parseInt.
      unfold zoomToSegment. cbn [segments set_selectedSegmentId].
      rewrite (Hfind _ Hstrict). simpl. by rewrite (Hfind _ Hstrict). }
  assert (∀ d, navigateSegment b d st1
               = if ((0 <=? -1 + d)
                     && (-1 + d <? Z.of_nat (length (segments st))))%Z
                 then match segments st !! Z.to_nat (-1 + d) with
                      | Some segment => selectSegment_of b (segment_id segment) st1
                      | None => st1
                      end
                 else st1) as Hnav.
  { intros d. unfold navigateSegment. by rewrite Hsel, Hsegs, Hstrict. }
  refine (conj Hsel (conj H2 (conj H3 (conj H4 (conj Hsegs (conj _ _)))))).
  - rewrite Hnav. reflexivity.
  - intros first Hfirst. rewrite Hnav.
    pose proof (lookup_lt_Some _ _ _ Hfirst) as Hlen.
    destruct (Z.ltb_spec (-1 + 1) (Z.of_nat (length (segments st)))); [|lia].
    change (0 <=? -1 + 1)%Z with true. cbn [andb].
    change (Z.to_nat (-1 + 1)) with 0%nat.
    rewrite Hfirst. apply selectSegment_of_selected.
Qed.

Lemma selecting_an_absent_id_witness :
  selectedSegmentId
    (navigateSegment Soft 1
       (selectSegment_of Soft (IdStr 99) (sampleState None [] [])))
  = Some 41%Z.
Proof.
  refine (proj2 (proj2 (proj2 (proj2 (proj2 (proj2
            (selecting_an_absent_id Soft (IdStr 99) (sampleState None [] [])
               _)))))) (sampleSegment 41 0 1 "one") eq_refl).
  intros s Hs. simpl in Hs. unfold sampleSegments in Hs.
  repeat (apply elem_of_cons in Hs as [-> | Hs]; [discriminate|]).
  by apply elem_of_nil in Hs.
Defined.
